(** * Simplest policy gradient: a model of [1_simple_pg.py]

    The script builds a small feed-forward policy, collects batches of
    experience from an environment, and takes one optimizer step per batch.
    The environment (gymnasium) and the sampling, log-probability and
    autograd services of torch are collaborators of the script and are taken
    as parameters; the optimizer is written out from the documented update
    rule of [torch.optim.Adam]; tensor scalars are idealised as real
    numbers, except for the optimizer, which is also read at IEEE 754
    binary32, where what is said of a learning rate of 0 is settled.  The
    experience loop is generic in the type of rewards and only uses
    Python's [sum] on them. *)

From Stdlib Require Import String.
From Stdlib Require Import List ZArith Lia Bool Reals Lra SpecFloat.
Import ListNotations.

Set Implicit Arguments.

(** ** Part I: the program *)

(** *** [mlp] *)

Section Builder.
(** Activation classes ([nn.Tanh], [nn.Identity], ...) are only passed
    around and instantiated by [mlp]. *)
Variable Activation : Type.

Inductive Layer : Type :=
| Linear (in_features out_features : nat)
| Act (a : Activation).

(** Loop body for index [j]:
    [act = activation if j < len(sizes)-2 else output_activation]
    [layers += [nn.Linear(sizes[j], sizes[j+1]), act()]].
    [len(sizes)-2] is a Python integer and may be negative. *)
Definition mlp_stage (sizes : list nat)
           (activation output_activation : Activation) (j : nat) : list Layer :=
  let act := if (Z.of_nat j <? Z.of_nat (length sizes) - 2)%Z
             then activation else output_activation in
  [Linear (nth j sizes 0) (nth (j + 1) sizes 0); Act act].

(** [for j in range(len(sizes)-1)], accumulating into [layers]; the result
    is the argument list of [nn.Sequential]. *)
Definition mlp (sizes : list nat)
           (activation output_activation : Activation) : list Layer :=
  fold_left (fun layers j => layers ++ mlp_stage sizes activation output_activation j)
            (seq 0 (Z.to_nat (Z.of_nat (length sizes) - 1)))
            [].
End Builder.

Inductive TorchActivation : Type := Tanh | Identity.

Definition Net : Type := list (Layer TorchActivation).

(** *** The environment interface *)

(** [gymnasium.spaces]: the script only tells [Box] and [Discrete] from the
    rest. *)
Inductive Space : Type :=
| Box (shape : list nat)
| Discrete (n : nat)
| OtherSpace.

(** The 5-tuple returned by [env.step], without [info]. *)
Record StepResult (Obs Rew : Type) : Type := mkStepResult {
  sr_obs : Obs;
  sr_reward : Rew;
  sr_terminated : bool;
  sr_truncated : bool
}.

(** An environment with internal state [Env]. *)
Record Gym (Env Obs Rew : Type) : Type := mkGym {
  observation_space : Env -> Space;
  action_space : Env -> Space;
  reset : Env -> Env * Obs;
  step : Env -> nat -> Env * StepResult Obs Rew;
  render_frame : Env -> Env
}.

(** *** The experience loop of [train_one_epoch] (lines 60-106) *)

Section Collector.
Variables Obs Env Rng Rew : Type.
Variable rzero : Rew.
Variable radd : Rew -> Rew -> Rew.
Variable gym : Gym Env Obs Rew.
(** [get_action], at the parameters current during the epoch; sampling
    consumes the state of the random generator. *)
Variable get_action : Obs -> Rng -> nat * Rng.
Variable render : bool.
Variable batch_size : Z.

(** Python's [sum]: left to right from the integer [0]. *)
Definition py_sum (xs : list Rew) : Rew := fold_left radd xs rzero.

(** The variables of the loop that drive the interaction. *)
Record Sim : Type := mkSim {
  s_env : Env;
  s_obs : Obs;
  s_rng : Rng;
  s_finished_rendering : bool
}.

(** The lists the loop fills, and the episode lengths it prints. *)
Record Acc : Type := mkAcc {
  batch_obs : list Obs;
  batch_acts : list nat;
  batch_weights : list Rew;
  batch_rets : list Rew;
  batch_lens : list nat;
  ep_rews : list Rew;
  printed : list nat
}.

Definition empty_acc : Acc := mkAcc [] [] [] [] [] [] [].

(** [while True: ...]; one unit of fuel per iteration, [None] when the fuel
    is exhausted before the [break]. *)
Fixpoint collect (fuel : nat) (s : Sim) (a : Acc) : option (Sim * Acc) :=
  match fuel with
  | O => None
  | S fuel' =>
    let env1 := if negb (s_finished_rendering s) && render
                then render_frame gym (s_env s) else s_env s in
    let obs_l := batch_obs a ++ [s_obs s] in
    let '(act, rng1) := get_action (s_obs s) (s_rng s) in
    let '(env2, r) := step gym env1 act in
    let acts_l := batch_acts a ++ [act] in
    let rews := ep_rews a ++ [sr_reward r] in
    if sr_terminated r then
      let ep_ret := py_sum rews in
      let ep_len := length rews in
      let '(env3, obs3) := reset gym env2 in
      let s' := mkSim env3 obs3 rng1 true in
      let a' := mkAcc obs_l acts_l
                      (batch_weights a ++ repeat ep_ret ep_len)
                      (batch_rets a ++ [ep_ret])
                      (batch_lens a ++ [ep_len])
                      []
                      (printed a ++ [ep_len]) in
      if (batch_size <? Z.of_nat (length obs_l))%Z
      then Some (s', a')
      else collect fuel' s' a'
    else
      collect fuel'
              (mkSim env2 (sr_obs r) rng1 (s_finished_rendering s))
              (mkAcc obs_l acts_l (batch_weights a) (batch_rets a)
                     (batch_lens a) rews (printed a))
  end.

(** *** The interaction seen from outside the loop

    One interaction step: the policy acts, the environment answers, and the
    environment is reset when the episode is over.  [rollout] lists the
    first [n] steps of the interaction; it is what the batch is compared
    with. *)
Record Step : Type := mkStep {
  st_obs : Obs;
  st_act : nat;
  st_rew : Rew;
  st_done : bool
}.

Definition interact (s : Sim) : Sim * Step :=
  let env1 := if negb (s_finished_rendering s) && render
              then render_frame gym (s_env s) else s_env s in
  let '(act, rng1) := get_action (s_obs s) (s_rng s) in
  let '(env2, r) := step gym env1 act in
  if sr_terminated r then
    let '(env3, obs3) := reset gym env2 in
    (mkSim env3 obs3 rng1 true, mkStep (s_obs s) act (sr_reward r) true)
  else
    (mkSim env2 (sr_obs r) rng1 (s_finished_rendering s),
     mkStep (s_obs s) act (sr_reward r) false).

Fixpoint rollout (n : nat) (s : Sim) : list Step :=
  match n with
  | O => []
  | S m => snd (interact s) :: rollout m (fst (interact s))
  end.

Fixpoint sim_after (n : nat) (s : Sim) : Sim :=
  match n with
  | O => s
  | S m => sim_after m (fst (interact s))
  end.

(** Whether the [k]-th step of the interaction (counting from 1) ends an
    episode. *)
Fixpoint done_at (k : nat) (s : Sim) : bool :=
  match k with
  | O => false
  | S O => st_done (snd (interact s))
  | S k' => done_at k' (fst (interact s))
  end.

(** The completed episodes of a trace: it is cut after every step that ends
    an episode; [cur] holds the steps of the episode under way. *)
Fixpoint episodes_from (cur : list Step) (tr : list Step) : list (list Step) :=
  match tr with
  | [] => []
  | x :: tr' =>
    if st_done x then (cur ++ [x]) :: episodes_from [] tr'
    else episodes_from (cur ++ [x]) tr'
  end.

Definition episodes (tr : list Step) : list (list Step) := episodes_from [] tr.

(** An episode: steps that do not terminate, then one that does. *)
Definition is_episode (ep : list Step) : Prop :=
  exists body last,
    ep = body ++ [last] /\ st_done last = true /\
    Forall (fun x => st_done x = false) body.

(** The return of an episode: the sum of all its rewards. *)
Definition episode_return (ep : list Step) : Rew := py_sum (map st_rew ep).

(** [N] is the first step count that ends an episode and satisfies
    [reached]. *)
Definition first_boundary (reached : nat -> Prop) (s : Sim) (N : nat) : Prop :=
  done_at N s = true /\ reached N /\
  forall k, done_at k s = true -> reached k -> N <= k.

End Collector.

(** *** Tensors, the policy and the loss (lines 41-53) *)

Open Scope R_scope.

(** What the script asks of torch for a network [net] with flattened
    parameter vector [theta]: initial parameters, sampling an action from
    [Categorical(logits=logits_net(obs))], the log-probability of an action
    under it, and the gradient of the batch loss in each parameter, as
    [backward] computes it. *)
Record Torch (Obs Rng : Type) : Type := mkTorch {
  init_params : Net -> Rng -> list R * Rng;
  sample : Net -> list R -> Obs -> Rng -> nat * Rng;
  log_prob : Net -> list R -> Obs -> nat -> R;
  loss_grad : Net -> list R -> list Obs -> list nat -> list R -> nat -> R
}.

(** Broadcasting of two one-dimensional shapes: equal lengths pair up, a
    length-1 operand is repeated, anything else is a shape error. *)
Definition broadcast (A B : Type) (xs : list A) (ys : list B) : option (list (A * B)) :=
  if (length xs =? length ys)%nat then Some (combine xs ys)
  else match xs, ys with
       | _, [y] => Some (map (fun x => (x, y)) xs)
       | [x], _ => Some (map (fun y => (x, y)) ys)
       | _, _ => None
       end.

(** [tensor.mean()] *)
Definition tensor_mean (xs : list R) : R :=
  fold_right Rplus 0 xs / INR (length xs).

Section Loss.
Variables Obs Rng : Type.
Variable torch : Torch Obs Rng.
Variable net : Net.

(** [get_policy(obs).log_prob(act)] on a batch. *)
Definition log_prob_batch (theta : list R) (obs : list Obs) (act : list nat)
  : option (list R) :=
  option_map (map (fun oa => log_prob torch net theta (fst oa) (snd oa)))
             (broadcast obs act).

(** [compute_loss]: [-(logp * weights).mean()]. *)
Definition compute_loss (theta : list R) (obs : list Obs) (act : list nat)
           (weights : list R) : option R :=
  match log_prob_batch theta obs act with
  | None => None
  | Some logp =>
    match broadcast logp weights with
    | None => None
    | Some lw => Some (- tensor_mean (map (fun p => fst p * snd p) lw))
    end
  end.

(** The loss as the specification words it: the negated average over the
    batch of log-probability times weight, step by step. *)
Definition loss_spec (theta : list R) (obs : list Obs) (act : list nat)
           (weights : list R) (d : Obs) : R :=
  - (fold_right Rplus 0
       (map (fun i => log_prob torch net theta (nth i obs d) (nth i act O)
                      * nth i weights 0)
            (seq 0 (length obs)))
     / INR (length obs)).
End Loss.

(** *** The optimizer (line 56): [Adam(logits_net.parameters(), lr=lr)] *)

(** Per-parameter optimizer state, created at the first step. *)
Record AdamState : Type := mkAdamState {
  ad_step : nat;
  exp_avg : R;
  exp_avg_sq : R
}.

(** One scalar parameter: its value, its [.grad] buffer ([None] until the
    first [backward]) and its optimizer state. *)
Record Slot : Type := mkSlot {
  p_data : R;
  p_grad : option R;
  p_state : option AdamState
}.

Definition fresh_slot (x : R) : Slot := mkSlot x None None.

Definition beta1 : R := 9 / 10.
Definition beta2 : R := 999 / 1000.
Definition adam_eps : R := / 100000000.

(** [optimizer.step()] on one parameter, with the defaults
    [betas=(0.9, 0.999)], [eps=1e-8], [weight_decay=0], [amsgrad=False]:
    parameters without gradient are skipped. *)
Definition adam_step (lr : R) (s : Slot) : Slot :=
  match p_grad s with
  | None => s
  | Some g =>
    let st := match p_state s with
              | None => mkAdamState 0 0 0
              | Some st => st
              end in
    let t := S (ad_step st) in
    let m := beta1 * exp_avg st + (1 - beta1) * g in
    let v := beta2 * exp_avg_sq st + (1 - beta2) * (g * g) in
    let bias_correction1 := 1 - beta1 ^ t in
    let bias_correction2 := 1 - beta2 ^ t in
    let step_size := lr / bias_correction1 in
    let denom := sqrt v / sqrt bias_correction2 + adam_eps in
    mkSlot (p_data s + - step_size * (m / denom)) (Some g) (Some (mkAdamState t m v))
  end.

(** [loss.backward()]: the gradient of this loss is ADDED to each
    parameter's [.grad] buffer (stored as is when the buffer is [None]).
    Nothing in the script clears the buffers. *)
Fixpoint backward_from (i : nat) (g : nat -> R) (slots : list Slot) : list Slot :=
  match slots with
  | [] => []
  | s :: rest =>
    mkSlot (p_data s)
           (Some (match p_grad s with
                  | None => g i
                  | Some g0 => g0 + g i
                  end))
           (p_state s)
    :: backward_from (S i) g rest
  end.

Definition backward (g : nat -> R) (slots : list Slot) : list Slot :=
  backward_from 0 g slots.

(** *** [train] *)

Inductive Error : Type :=
| AssertionError (msg : string)
| IndexError
| RuntimeError
| GymError (msg : string).

Inductive Outcome (A : Type) : Type :=
| Ret (a : A)
| Raise (e : Error)
| OutOfFuel.
Arguments Raise {A} e.
Arguments OutOfFuel {A}.

Inductive LogLine : Type :=
| EpisodeLength (ep_len : nat)
| EpochLine (i : nat) (loss ret ep_len : R).

(** [np.mean] *)
Definition np_mean (xs : list R) : R := tensor_mean xs.

Section Train.
Variables Obs Env Rng : Type.
Variable gym : Gym Env Obs R.
Variable torch : Torch Obs Rng.
(** [gym.make]: an environment or an error. *)
Variable gym_make : string -> Error + Env.

(** What persists across epochs: the environment, torch's random generator,
    the parameters with their gradient buffers and optimizer state, and what
    has been printed. *)
Record World : Type := mkWorld {
  w_env : Env;
  w_rng : Rng;
  w_slots : list Slot;
  w_stdout : list LogLine
}.

Definition params (w : World) : list R := map p_data (w_slots w).

Section Epochs.
Variable net : Net.
Variable lr : R.
Variable batch_size : Z.
Variable render : bool.

(** The gradient of the loss of a batch at parameters [theta]. *)
Definition batch_grad (theta : list R) (a : Acc Obs R) : nat -> R :=
  loss_grad torch net theta (batch_obs a) (batch_acts a) (batch_weights a).

(** [train_one_epoch], with [fuel] bounding the experience loop. *)
Definition train_one_epoch (fuel : nat) (w : World)
  : Outcome (World * (R * list R * list nat)) :=
  let '(env0, obs0) := reset gym (w_env w) in
  let theta := params w in
  match collect 0 Rplus gym (sample torch net theta) render batch_size fuel
                (mkSim env0 obs0 (w_rng w) false) (empty_acc Obs R) with
  | None => OutOfFuel
  | Some (s, a) =>
    match compute_loss torch net theta (batch_obs a) (batch_acts a) (batch_weights a) with
    | None => Raise RuntimeError
    | Some batch_loss =>
      let slots1 := backward (batch_grad theta a) (w_slots w) in
      let slots2 := map (adam_step lr) slots1 in
      Ret (mkWorld (s_env s) (s_rng s) slots2
                   (w_stdout w ++ map EpisodeLength (printed a)),
           (batch_loss, batch_rets a, batch_lens a))
    end
  end.

(** [for i in range(epochs): ...] over the list of indices. *)
Fixpoint epoch_loop (fuel : nat) (idx : list nat) (w : World) : Outcome World :=
  match idx with
  | [] => Ret w
  | i :: idx' =>
    match train_one_epoch fuel w with
    | Ret (w1, (batch_loss, rets, lens)) =>
      epoch_loop fuel idx'
        (mkWorld (w_env w1) (w_rng w1) (w_slots w1)
                 (w_stdout w1 ++
                  [EpochLine i batch_loss (np_mean rets) (np_mean (map INR lens))]))
    | Raise e => Raise e
    | OutOfFuel => OutOfFuel
    end
  end.
End Epochs.

Definition msg_obs : string :=
  "This example only works for envs with continuous state spaces.".
Definition msg_act : string :=
  "This example only works for envs with discrete action spaces.".

(** Lines 26-56: make the environment, check its spaces, build the network
    and the optimizer. *)
Definition setup (env_name : string) (hidden_sizes : list nat) (rng0 : Rng)
  : Outcome (Net * World) :=
  match gym_make env_name with
  | inl e => Raise e
  | inr env =>
    match observation_space gym env with
    | Box shape =>
      match action_space gym env with
      | Discrete n_acts =>
        match shape with
        | [] => Raise IndexError
        | obs_dim :: _ =>
          let net := mlp (obs_dim :: hidden_sizes ++ [n_acts]) Tanh Identity in
          let '(theta0, rng1) := init_params torch net rng0 in
          Ret (net, mkWorld env rng1 (map fresh_slot theta0) [])
        end
      | _ => Raise (AssertionError msg_act)
      end
    | _ => Raise (AssertionError msg_obs)
    end
  end.

(** [train(env_name, hidden_sizes, lr, epochs, batch_size, render)] *)
Definition train (fuel : nat) (env_name : string) (hidden_sizes : list nat)
           (lr : R) (epochs : Z) (batch_size : Z) (render : bool) (rng0 : Rng)
  : Outcome World :=
  match setup env_name hidden_sizes rng0 with
  | Ret (net, w0) =>
    epoch_loop net lr batch_size render fuel (seq 0 (Z.to_nat epochs)) w0
  | Raise e => Raise e
  | OutOfFuel => OutOfFuel
  end.

End Train.

(** ** Part II: bookkeeping of the loop, and stub collaborators *)

Section Bookkeeping.
Variables Obs Rew : Type.
Variable rzero : Rew.
Variable radd : Rew -> Rew -> Rew.

(** What one iteration of the loop does to the lists, given the step it
    observed. *)
Definition record_step (a : Acc Obs Rew) (x : Step Obs Rew) : Acc Obs Rew :=
  let rews := ep_rews a ++ [st_rew x] in
  if st_done x then
    mkAcc (batch_obs a ++ [st_obs x]) (batch_acts a ++ [st_act x])
          (batch_weights a ++ repeat (py_sum rzero radd rews) (length rews))
          (batch_rets a ++ [py_sum rzero radd rews])
          (batch_lens a ++ [length rews])
          []
          (printed a ++ [length rews])
  else
    mkAcc (batch_obs a ++ [st_obs x]) (batch_acts a ++ [st_act x])
          (batch_weights a) (batch_rets a) (batch_lens a) rews (printed a).

(** The weights a list of episodes calls for: each step of an episode
    carries the return of the whole episode. *)
Definition return_weights (eps : list (list (Step Obs Rew))) : list Rew :=
  flat_map (fun ep => repeat (episode_return rzero radd ep) (length ep)) eps.
End Bookkeeping.

(** A stub environment family.  [TwoStep n]: every episode ends at its
    second step, every step pays reward 1; [n] counts the steps since the
    last reset.  [Grid]: an environment whose observations are discrete. *)
Inductive StubEnv : Type :=
| TwoStep (n : nat)
| Grid.

Definition stub_gym : Gym StubEnv unit R :=
  mkGym (fun e => match e with TwoStep _ => Box [1%nat] | Grid => Discrete 16 end)
        (fun e => match e with TwoStep _ => Discrete 2 | Grid => Discrete 4 end)
        (fun e => match e with TwoStep _ => (TwoStep 0, tt) | Grid => (Grid, tt) end)
        (fun e _ => match e with
                    | TwoStep n => (TwoStep (S n), mkStepResult tt 1 (2 <=? S n)%nat false)
                    | Grid => (Grid, mkStepResult tt 0 true false)
                    end)
        (fun e => e).

Definition stub_make (env_name : string) : Error + StubEnv :=
  if String.eqb env_name "TwoStep-v0" then inr (TwoStep 0)
  else if String.eqb env_name "Grid-v0" then inr Grid
  else inl (GymError env_name).

(** A stub torch: a logistic policy over two actions with a single
    parameter, the logits being [theta; 0] whatever the observation.  The
    log-probability of action [a] is [logit a - ln (exp theta + 1)], and the
    gradient of the batch loss in the parameter is
    [- mean ((1 if a = 0 else 0) - sigmoid theta) * w)].  Sampling draws
    action 0 every time, and the random generator has no state. *)
Definition sigmoid (t : R) : R := exp t / (exp t + 1).

Definition stub_log_prob (theta : list R) (a : nat) : R :=
  (if (a =? 0)%nat then nth 0 theta 0 else 0) - ln (exp (nth 0 theta 0) + 1).

Definition stub_loss_grad (theta : list R) (acts : list nat) (weights : list R)
           (i : nat) : R :=
  match i with
  | O => - tensor_mean
            (map (fun aw => ((if (fst aw =? 0)%nat then 1 else 0)
                             - sigmoid (nth 0 theta 0)) * snd aw)
                 (combine acts weights))
  | S _ => 0
  end.

Definition stub_torch : Torch unit unit :=
  mkTorch (fun _ rng => ([1 / 2], rng))
          (fun _ _ _ rng => (O, rng))
          (fun _ theta _ a => stub_log_prob theta a)
          (fun _ theta _ acts weights i => stub_loss_grad theta acts weights i).

Definition stub_action (o : unit) (rng : unit) : nat * unit := (O, rng).

Definition stub_start : Sim unit StubEnv unit := mkSim (TwoStep 0) tt tt false.

(** The batch the loop collects from the two-step environment with
    threshold 3, and the loop variables it leaves. *)
Definition stub_batch : Acc unit R :=
  mkAcc [tt; tt; tt; tt] [O; O; O; O]
        [0 + 1 + 1; 0 + 1 + 1; 0 + 1 + 1; 0 + 1 + 1]
        [0 + 1 + 1; 0 + 1 + 1] [2; 2]%nat [] [2; 2]%nat.

Definition stub_end : Sim unit StubEnv unit := mkSim (TwoStep 0) tt tt true.

(** The number of optimizer steps a parameter has seen. *)
Definition slot_steps (s : Slot) : nat :=
  match p_state s with
  | None => O
  | Some st => ad_step st
  end.

(** The gradient buffer after one more [backward]. *)
Definition accumulated (old : option R) (g : R) : R :=
  match old with
  | None => g
  | Some g0 => g0 + g
  end.

(** Training on the two-step environment with the stub torch. *)
Definition stub_net : Net := mlp [1; 32; 2]%nat Tanh Identity.

Definition stub_world0 : World StubEnv unit :=
  mkWorld (TwoStep 0) tt [fresh_slot (1 / 2)] [].

Abbreviation stub_train lr epochs :=
  (train stub_gym stub_torch stub_make 4 "TwoStep-v0" [32]%nat lr epochs 3 false tt).

(** The loss of [stub_batch] under the stub torch. *)
Definition stub_loss (theta : list R) : R :=
  - tensor_mean
      (map (fun p => fst p * snd p)
           (combine (map (fun oa : unit * nat => stub_log_prob theta (snd oa))
                         (combine (batch_obs stub_batch) (batch_acts stub_batch)))
                    (batch_weights stub_batch))).

(** The gradient of that loss in the parameter. *)
Definition stub_grad (theta : list R) : R :=
  stub_loss_grad theta (batch_acts stub_batch) (batch_weights stub_batch) 0.

(** What epoch [i] makes of a world there: the gradient of the loss goes
    into the buffer, the optimizer steps, three lines are printed. *)
Definition stub_next (lr : R) (i : nat) (w : World StubEnv unit)
  : World StubEnv unit :=
  mkWorld (TwoStep 0) tt
          (map (adam_step lr)
               (backward (batch_grad stub_torch stub_net (params w) stub_batch)
                         (w_slots w)))
          ((w_stdout w ++ [EpisodeLength 2; EpisodeLength 2]) ++
           [EpochLine i (stub_loss (params w)) (np_mean (batch_rets stub_batch))
                      (np_mean (map INR (batch_lens stub_batch)))]).

Definition stub_final (lr : R) (epochs : Z) : World StubEnv unit :=
  fold_left (fun w i => stub_next lr i w) (seq 0 (Z.to_nat epochs)) stub_world0.

(** *** Shapes through the network *)

(** The size of the last axis after a layer, for an input whose last axis
    has size [d]: [nn.Linear(i, o)] takes size [i] only (anything else is a
    shape error) and gives size [o]; an activation keeps the shape. *)
Definition layer_out_dim (A : Type) (l : Layer A) (d : nat) : option nat :=
  match l with
  | Linear _ i o => if (d =? i)%nat then Some o else None
  | Act _ => Some d
  end.

(** [nn.Sequential]: the layers one after the other. *)
Fixpoint net_out_dim (A : Type) (net : list (Layer A)) (d : nat) : option nat :=
  match net with
  | [] => Some d
  | l :: rest =>
    match layer_out_dim l d with
    | Some d' => net_out_dim rest d'
    | None => None
    end
  end.

(** *** Variants of an environment *)

(** The same environment with another [truncated] flag. *)
Definition retruncate (Env Obs Rew : Type) (f : Env -> nat -> bool)
           (gym : Gym Env Obs Rew) : Gym Env Obs Rew :=
  mkGym (observation_space gym) (action_space gym) (reset gym)
        (fun e a =>
           (fst (step gym e a),
            mkStepResult (sr_obs (snd (step gym e a)))
                         (sr_reward (snd (step gym e a)))
                         (sr_terminated (snd (step gym e a)))
                         (f e a)))
        (render_frame gym).

(** The same environment with another [render]. *)
Definition rerender (Env Obs Rew : Type) (f : Env -> Env)
           (gym : Gym Env Obs Rew) : Gym Env Obs Rew :=
  mkGym (observation_space gym) (action_space gym) (reset gym) (step gym) f.

(** The same environment when [env.render()] is called before every
    step. *)
Definition filmed (Env Obs Rew : Type) (gym : Gym Env Obs Rew) : Gym Env Obs Rew :=
  mkGym (observation_space gym) (action_space gym) (reset gym)
        (fun e a => step gym (render_frame gym e) a)
        (render_frame gym).

(** An environment that counts the frames it has rendered: its state is
    the number of steps since the last reset and the number of calls of
    [render] so far; every episode ends at its second step. *)
Definition camera_gym : Gym (nat * nat) unit R :=
  mkGym (fun _ => Box [1%nat]) (fun _ => Discrete 2)
        (fun e => ((O, snd e), tt))
        (fun e _ => ((S (fst e), snd e),
                     mkStepResult tt 1 (2 <=? S (fst e))%nat false))
        (fun e => (fst e, S (snd e))).

(** An environment that pays 1 per step and only ever truncates: no
    episode is reported as terminated. *)
Definition endless_gym : Gym nat unit R :=
  mkGym (fun _ => Box [1%nat]) (fun _ => Discrete 2)
        (fun _ => (O, tt))
        (fun n _ => (S n, mkStepResult tt 1 false (500 <=? S n)%nat))
        (fun n => n).

(** *** The output and the script's entry point *)

(** The number of environment steps the printed episode lengths add up
    to. *)
Definition episode_steps (out : list LogLine) : nat :=
  list_sum (flat_map (fun l => match l with
                               | EpisodeLength n => [n]
                               | EpochLine _ _ _ _ => []
                               end) out).

(** What [parser.parse_args()] returns: [--env_name]/[--env], [--render],
    [--lr]. *)
Record Args : Type := mkArgs {
  arg_env_name : string;
  arg_render : bool;
  arg_lr : R
}.

(** The values of the arguments when no flag is given. *)
Definition default_args : Args := mkArgs "CartPole-v1" false (1 / 100).



Section Main.
Variables Obs Env Rng : Type.
Variable gym : Gym Env Obs R.
Variable torch : Torch Obs Rng.
Variable gym_make : string -> Error + Env.

End Main.

(** *** More stub collaborators *)

(** An environment whose episodes take three steps, each paying 1. *)
Definition three_step_gym : Gym nat unit R :=
  mkGym (fun _ => Box [1%nat]) (fun _ => Discrete 2)
        (fun _ => (O, tt))
        (fun n _ => (S n, mkStepResult tt 1 (3 <=? S n)%nat false))
        (fun n => n).

Definition three_step_batch : Acc unit R :=
  mkAcc [tt; tt; tt] [O; O; O]
        [0 + 1 + 1 + 1; 0 + 1 + 1 + 1; 0 + 1 + 1 + 1]
        [0 + 1 + 1 + 1] [3%nat] [] [3%nat].

(** The batch of one episode the two-step environment gives when
    [batch_size] is 0. *)
Definition stub_batch1 : Acc unit R :=
  mkAcc [tt; tt] [O; O] [0 + 1 + 1; 0 + 1 + 1] [0 + 1 + 1] [2%nat] [] [2%nat].


(** What one epoch prints: the length of each of its episodes, then its
    own line, whose last column is the mean of those lengths. *)
Record EpochReport : Type := mkReport {
  er_index : nat;
  er_lens : list nat;
  er_loss : R;
  er_return : R
}.

Definition print_report (r : EpochReport) : list LogLine :=
  map EpisodeLength (er_lens r) ++
  [EpochLine (er_index r) (er_loss r) (er_return r) (np_mean (map INR (er_lens r)))].

(** *** The optimizer in floating point

    The tensors of the script are [float32] (lines 84 and 108-110), so its
    optimizer rounds.  The optimizer of line 56 and its use at lines 112-113
    are written here over an arbitrary arithmetic: read at the real numbers
    they are [adam_step] and [backward] above, read at IEEE 754 binary32
    they round, overflow and produce NaN as the tensors of the script do.
    Scalars such as the bias corrections are computed in the arithmetic of
    the tensors. *)

Record Arith (F : Type) : Type := mkArith {
  a_of_Z : Z -> F;
  a_add : F -> F -> F;
  a_sub : F -> F -> F;
  a_mul : F -> F -> F;
  a_div : F -> F -> F;
  a_inv : F -> F;
  a_sqrt : F -> F;
  a_opp : F -> F
}.

Section OptimizerIn.
Variable F : Type.
Variable ar : Arith F.

Record AdamStateIn : Type := mkAdamStateIn {
  ai_step : nat;
  ai_exp_avg : F;
  ai_exp_avg_sq : F
}.

Record SlotIn : Type := mkSlotIn {
  d_data : F;
  d_grad : option F;
  d_state : option AdamStateIn
}.

Definition beta1_in : F := a_div ar (a_of_Z ar 9) (a_of_Z ar 10).
Definition beta2_in : F := a_div ar (a_of_Z ar 999) (a_of_Z ar 1000).
Definition eps_in : F := a_inv ar (a_of_Z ar 100000000).

Fixpoint pow_in (x : F) (n : nat) : F :=
  match n with
  | O => a_of_Z ar 1
  | S n' => a_mul ar x (pow_in x n')
  end.

(** The state of a parameter before its first step. *)
Definition state_in (s : SlotIn) : AdamStateIn :=
  match d_state s with
  | None => mkAdamStateIn 0 (a_of_Z ar 0) (a_of_Z ar 0)
  | Some st => st
  end.

(** The step counter and the two moment estimates after one more step on
    the gradient [g]. *)
Definition moments_in (g : F) (st : AdamStateIn) : AdamStateIn :=
  mkAdamStateIn
    (S (ai_step st))
    (a_add ar (a_mul ar beta1_in (ai_exp_avg st))
              (a_mul ar (a_sub ar (a_of_Z ar 1) beta1_in) g))
    (a_add ar (a_mul ar beta2_in (ai_exp_avg_sq st))
              (a_mul ar (a_sub ar (a_of_Z ar 1) beta2_in) (a_mul ar g g))).

(** [lr / bias_correction1] *)
Definition step_size_in (lr : F) (t : nat) : F :=
  a_div ar lr (a_sub ar (a_of_Z ar 1) (pow_in beta1_in t)).

(** [exp_avg / denom], the update before it is scaled by the step size. *)
Definition direction_in (st : AdamStateIn) : F :=
  a_div ar (ai_exp_avg st)
        (a_add ar
           (a_div ar (a_sqrt ar (ai_exp_avg_sq st))
                     (a_sqrt ar (a_sub ar (a_of_Z ar 1)
                                          (pow_in beta2_in (ai_step st)))))
           eps_in).

Definition adam_step_in (lr : F) (s : SlotIn) : SlotIn :=
  match d_grad s with
  | None => s
  | Some g =>
    let st := moments_in g (state_in s) in
    mkSlotIn (a_add ar (d_data s)
                    (a_mul ar (a_opp ar (step_size_in lr (ai_step st)))
                              (direction_in st)))
             (Some g) (Some st)
  end.

Fixpoint backward_from_in (i : nat) (g : nat -> F) (slots : list SlotIn)
  : list SlotIn :=
  match slots with
  | [] => []
  | s :: rest =>
    mkSlotIn (d_data s)
             (Some (match d_grad s with
                    | None => g i
                    | Some g0 => a_add ar g0 (g i)
                    end))
             (d_state s)
    :: backward_from_in (S i) g rest
  end.

Definition backward_in (g : nat -> F) (slots : list SlotIn) : list SlotIn :=
  backward_from_in 0 g slots.

(** Lines 112-113 of one epoch, [g] being the gradient of its batch loss. *)
Definition epoch_in (lr : F) (g : nat -> F) (slots : list SlotIn) : list SlotIn :=
  map (adam_step_in lr) (backward_in g slots).

(** The optimizer through the epochs of a run, one gradient per epoch. *)
Definition run_in (lr : F) (gs : list (nat -> F)) (slots : list SlotIn)
  : list SlotIn :=
  fold_left (fun sl g => epoch_in lr g sl) gs slots.

End OptimizerIn.

(** The real numbers as an arithmetic, and the parameters of the model
    above as parameters over it. *)
Definition R_arith : Arith R :=
  mkArith IZR Rplus Rminus Rmult Rdiv Rinv sqrt Ropp.

Definition adam_state_in (st : AdamState) : AdamStateIn R :=
  mkAdamStateIn (ad_step st) (exp_avg st) (exp_avg_sq st).

Definition slot_in (s : Slot) : SlotIn R :=
  mkSlotIn (p_data s) (p_grad s) (option_map adam_state_in (p_state s)).

(** IEEE 754 binary32: 24 bits of precision, exponents below 128; every
    operation rounds to nearest, ties to even. *)
Definition f32 : Type := spec_float.

Definition f32_of_Z (z : Z) : f32 := binary_normalize 24 128 z 0 false.

Definition f32_arith : Arith f32 :=
  mkArith f32_of_Z (SFadd 24 128) (SFsub 24 128) (SFmul 24 128) (SFdiv 24 128)
          (fun x => SFdiv 24 128 (f32_of_Z 1) x) (SFsqrt 24 128) SFopp.

(** Neither infinite nor NaN. *)
Definition f32_finite (x : f32) : bool :=
  match x with
  | S754_zero _ | S754_finite _ _ _ => true
  | S754_infinity _ | S754_nan => false
  end.

Definition f32_is_zero (x : f32) : bool :=
  match x with
  | S754_zero _ => true
  | _ => false
  end.

(** The same float, up to the sign of a zero ([0.0 == -0.0]). *)
Definition same_value (x y : f32) : Prop :=
  x = y \/ (f32_is_zero x = true /\ f32_is_zero y = true).

(** Whether the step about to be taken on a parameter, and every step of
    the run given by the gradients [gs], has an update [exp_avg / denom]
    that is neither infinite nor NaN. *)
Definition step_finite (s : SlotIn f32) : bool :=
  match d_grad s with
  | None => true
  | Some g => f32_finite (direction_in f32_arith (moments_in f32_arith g (state_in f32_arith s)))
  end.

Fixpoint updates_finite (lr : f32) (gs : list (nat -> f32)) (slots : list (SlotIn f32))
  : bool :=
  match gs with
  | [] => true
  | g :: gs' =>
    forallb step_finite (backward_in f32_arith g slots)
    && updates_finite lr gs' (epoch_in f32_arith lr g slots)
  end.

(** Whether a predicate holds of [c], [x * c], [x * (x * c)], ... ([n] of
    them). *)
Fixpoint all_powers (P : f32 -> bool) (x c : f32) (n : nat) : bool :=
  match n with
  | O => true
  | S n' => P c && all_powers P x (SFmul 24 128 x c) n'
  end.

Definition f32_nonzero_finite (x : f32) : bool :=
  match x with
  | S754_finite _ _ _ => true
  | _ => false
  end.

(** ** Part III: properties *)

(** *** The network builder *)

Section BuilderFacts.
Variable Activation : Type.

Lemma fold_stage_app (f : nat -> list (Layer Activation)) (js : list nat) acc :
  fold_left (fun layers j => layers ++ f j) js acc = acc ++ flat_map f js.
Proof.
  revert acc; induction js as [|j js IH]; intros acc; simpl.
  - now rewrite app_nil_r.
  - rewrite IH. now rewrite <- app_assoc.
Qed.

Lemma mlp_flat_map sizes (a oa : Activation) :
  mlp sizes a oa =
  flat_map (mlp_stage sizes a oa) (seq 0 (Z.to_nat (Z.of_nat (length sizes) - 1))).
Proof. unfold mlp. now rewrite fold_stage_app. Qed.

Lemma flat_map_pairs_length (f : nat -> list (Layer Activation)) js :
  (forall j, length (f j) = 2%nat) -> length (flat_map f js) = (2 * length js)%nat.
Proof.
  intros Hf; induction js as [|j js IH]; simpl; [reflexivity|].
  rewrite length_app, Hf, IH. lia.
Qed.

Lemma flat_map_pairs_nth (g h : nat -> Layer Activation) d start len j :
  (j < len)%nat ->
  nth (2 * j) (flat_map (fun i => [g i; h i]) (seq start len)) d = g (start + j)%nat /\
  nth (2 * j + 1) (flat_map (fun i => [g i; h i]) (seq start len)) d = h (start + j)%nat.
Proof.
  revert start j; induction len as [|len IH]; intros start j Hj; [lia|].
  destruct j as [|j].
  - simpl. rewrite Nat.add_0_r. split; reflexivity.
  - assert (Hlt : (j < len)%nat) by lia.
    destruct (IH (S start) j Hlt) as [H1 H2].
    replace (2 * S j)%nat with (S (S (2 * j))) by lia.
    replace (S (S (2 * j)) + 1)%nat with (S (S (2 * j + 1))) by lia.
    simpl seq. simpl flat_map. simpl nth.
    replace (start + S j)%nat with (S start + j)%nat by lia.
    split; assumption.
Qed.
End BuilderFacts.

(** C9: for sizes [s0; ...; sn] with [n >= 1] the builder returns [n]
    stages, each a linear transform followed by an activation; stage [j]
    maps dimension [s_j] to [s_(j+1)], carries the hidden activation when it
    is not the last stage and the output activation when it is. *)
Theorem mlp_stages (Activation : Type) (sizes : list nat) (n : nat)
        (activation output_activation : Activation) (d : Layer Activation) :
  length sizes = S n -> (1 <= n)%nat ->
  length (mlp sizes activation output_activation) = (2 * n)%nat /\
  forall j, (j < n)%nat ->
    nth (2 * j) (mlp sizes activation output_activation) d
      = Linear Activation (nth j sizes O) (nth (S j) sizes O) /\
    nth (2 * j + 1) (mlp sizes activation output_activation) d
      = Act (if (j <? n - 1)%nat then activation else output_activation).
Proof.
  intros Hlen Hn.
  rewrite mlp_flat_map, Hlen.
  replace (Z.to_nat (Z.of_nat (S n) - 1)) with n by lia.
  split.
  - rewrite flat_map_pairs_length by reflexivity. now rewrite length_seq.
  - intros j Hj. unfold mlp_stage.
    destruct (flat_map_pairs_nth
                (fun i => Linear Activation (nth i sizes O) (nth (i + 1) sizes O))
                (fun i => Act (if (Z.of_nat i <? Z.of_nat (length sizes) - 2)%Z
                               then activation else output_activation))
                d 0 Hj) as [H1 H2].
    rewrite H1, H2. simpl. rewrite Hlen.
    replace (j + 1)%nat with (S j) by lia.
    split; [reflexivity|].
    destruct (Z.ltb_spec (Z.of_nat j) (Z.of_nat (S n) - 2));
      destruct (Nat.ltb_spec j (n - 1)); try reflexivity; lia.
Qed.

Lemma mlp_stages_witness :
  length (mlp [4; 32; 2]%nat Tanh Identity) = (2 * 2)%nat /\
  forall j, (j < 2)%nat ->
    nth (2 * j) (mlp [4; 32; 2]%nat Tanh Identity) (Act Identity)
      = Linear TorchActivation (nth j [4; 32; 2]%nat O) (nth (S j) [4; 32; 2]%nat O) /\
    nth (2 * j + 1) (mlp [4; 32; 2]%nat Tanh Identity) (Act Identity)
      = Act (if (j <? 2 - 1)%nat then Tanh else Identity).
Proof.
  apply (@mlp_stages TorchActivation [4; 32; 2]%nat 2%nat Tanh Identity (Act Identity)).
  - reflexivity.
  - lia.
Defined.

Example mlp_cartpole :
  mlp [4; 32; 2]%nat Tanh Identity =
  [Linear _ 4 32; Act Tanh; Linear _ 32 2; Act Identity].
Proof. reflexivity. Qed.

(** *** The experience loop *)

Section CollectorFacts.
Variables Obs Env Rng Rew : Type.
Variable rzero : Rew.
Variable radd : Rew -> Rew -> Rew.
Variable gym : Gym Env Obs Rew.
Variable get_action : Obs -> Rng -> nat * Rng.
Variable render : bool.
Variable batch_size : Z.

Local Abbreviation collect' := (collect rzero radd gym get_action render batch_size).
Local Abbreviation interact' := (interact gym get_action render).
Local Abbreviation rollout' := (rollout gym get_action render).
Local Abbreviation sim_after' := (sim_after gym get_action render).
Local Abbreviation done_at' := (done_at gym get_action render).
Local Abbreviation record' := (record_step rzero radd).
Local Abbreviation ret' := (episode_return rzero radd).
Local Abbreviation exceeded := (fun k : nat => (batch_size < Z.of_nat k)%Z).

(** One iteration of the loop is one interaction step, recorded; the loop
    leaves when that step ends an episode and the batch is large enough. *)
Lemma collect_unfold fuel s a :
  collect' (S fuel) s a =
  let s1 := fst (interact' s) in
  let x := snd (interact' s) in
  let a1 := record' a x in
  if st_done x && (batch_size <? Z.of_nat (length (batch_obs a1)))%Z
  then Some (s1, a1)
  else collect' fuel s1 a1.
Proof.
  unfold interact, record_step. simpl.
  destruct (get_action (s_obs s) (s_rng s)) as [act rng1].
  destruct (step gym _ act) as [env2 r].
  destruct (sr_terminated r); simpl.
  - destruct (reset gym env2) as [env3 obs3]. simpl.
    destruct (batch_size <? _)%Z; reflexivity.
  - reflexivity.
Qed.

Lemma record_step_obs (a : Acc Obs Rew) (x : Step Obs Rew) :
  batch_obs (record' a x) = batch_obs a ++ [st_obs x].
Proof. unfold record_step. destruct (st_done x); reflexivity. Qed.

Lemma record_step_acts (a : Acc Obs Rew) (x : Step Obs Rew) :
  batch_acts (record' a x) = batch_acts a ++ [st_act x].
Proof. unfold record_step. destruct (st_done x); reflexivity. Qed.

Lemma done_at_SS k s :
  done_at' (S (S k)) s = done_at' (S k) (fst (interact' s)).
Proof. reflexivity. Qed.

(** A finished run of the loop took some [n >= 1] interaction steps,
    recorded each of them in order, and [n] is the first step count that
    ends an episode with more than [batch_size] observations in the batch. *)
Lemma collect_run fuel : forall s a s' a',
  collect' fuel s a = Some (s', a') ->
  exists n, (1 <= n <= fuel)%nat /\
    s' = sim_after' n s /\
    a' = fold_left record' (rollout' n s) a /\
    done_at' n s = true /\
    (batch_size < Z.of_nat (length (batch_obs a) + n))%Z /\
    forall k, done_at' k s = true ->
              (batch_size < Z.of_nat (length (batch_obs a) + k))%Z ->
              (n <= k)%nat.
Proof.
  induction fuel as [|fuel IH]; intros s a s' a' H; [discriminate|].
  rewrite collect_unfold in H. cbv zeta in H.
  destruct (st_done (snd (interact' s)) &&
            (batch_size <? Z.of_nat (length (batch_obs (record' a (snd (interact' s))))))%Z)
    eqn:Hleave.
  - inversion H; subst; clear H.
    apply andb_prop in Hleave as [Hd Hsz].
    apply Z.ltb_lt in Hsz. rewrite record_step_obs, length_app in Hsz. simpl in Hsz.
    exists 1%nat. repeat split; try lia; try assumption.
    intros k Hk _. destruct k; [discriminate|lia].
  - apply IH in H as (n & Hn & Hs & Ha & Hd & Hsz & Hmin).
    rewrite record_step_obs, length_app in Hsz, Hmin. simpl in Hsz, Hmin.
    exists (S n). repeat split; try lia; try assumption.
    + destruct n; [lia|]. rewrite done_at_SS. assumption.
    + intros k Hk Hex. destruct k as [|[|k]].
      * discriminate.
      * exfalso. simpl in Hk. rewrite Hk in Hleave. simpl in Hleave.
        apply Z.ltb_ge in Hleave.
        rewrite record_step_obs, length_app in Hleave. simpl in Hleave. lia.
      * rewrite done_at_SS in Hk. apply Hmin in Hk; lia.
Qed.

(** The loop does leave, with fuel [n], as soon as step [n] ends an episode
    with the batch large enough. *)
Lemma collect_total fuel : forall n s a,
  (n <= fuel)%nat -> done_at' n s = true ->
  (batch_size < Z.of_nat (length (batch_obs a) + n))%Z ->
  exists r, collect' fuel s a = Some r.
Proof.
  induction fuel as [|fuel IH]; intros n s a Hn Hd Hsz.
  - assert (n = 0)%nat by lia. subst. discriminate.
  - rewrite collect_unfold. cbv zeta.
    destruct (st_done (snd (interact' s)) && _) eqn:Hleave; [eauto|].
    destruct n as [|[|n]].
    + discriminate.
    + exfalso. simpl in Hd. rewrite Hd in Hleave. simpl in Hleave.
      apply Z.ltb_ge in Hleave.
      rewrite record_step_obs, length_app in Hleave. simpl in Hleave. lia.
    + apply (IH (S n)); [lia|assumption|].
      rewrite record_step_obs, length_app. simpl. lia.
Qed.

(** More fuel does not change a finished run. *)
Lemma collect_more_fuel fuel : forall fuel' s a r,
  collect' fuel s a = Some r -> (fuel <= fuel')%nat -> collect' fuel' s a = Some r.
Proof.
  induction fuel as [|fuel IH]; intros fuel' s a r H Hle; [discriminate|].
  destruct fuel' as [|fuel']; [lia|].
  rewrite collect_unfold in *. cbv zeta in *.
  destruct (st_done (snd (interact' s)) && _); [assumption|].
  apply IH; [assumption|lia].
Qed.

(** The recorded observations and actions are those of the interaction. *)
Lemma record_all_obs (tr : list (Step Obs Rew)) : forall a : Acc Obs Rew,
  batch_obs (fold_left record' tr a) = batch_obs a ++ map (@st_obs _ _) tr /\
  batch_acts (fold_left record' tr a) = batch_acts a ++ map (@st_act _ _) tr.
Proof.
  induction tr as [|x tr IH]; intros a; simpl.
  - now rewrite !app_nil_r.
  - destruct (IH (record' a x)) as [H1 H2].
    rewrite H1, H2, record_step_obs, record_step_acts, <- !app_assoc.
    split; reflexivity.
Qed.

(** The per-episode lists follow the cut of the trace into episodes. *)
Lemma record_all_episodes (tr : list (Step Obs Rew)) : forall (a : Acc Obs Rew) cur,
  ep_rews a = map (@st_rew _ _) cur ->
  let eps := episodes_from cur tr in
  let a' := fold_left record' tr a in
  batch_weights a' = batch_weights a ++ return_weights rzero radd eps /\
  batch_rets a' = batch_rets a ++ map ret' eps /\
  batch_lens a' = batch_lens a ++ map (@length _) eps /\
  printed a' = printed a ++ map (@length _) eps.
Proof.
  induction tr as [|x tr IH]; intros a cur Hcur; cbv zeta.
  - simpl. now rewrite !app_nil_r.
  - simpl fold_left. simpl episodes_from.
    destruct (st_done x) eqn:Hd.
    + assert (E : ep_rews (record' a x) = map (@st_rew Obs Rew) []).
      { unfold record_step. now rewrite Hd. }
      destruct (IH (record' a x) [] E) as (Hw & Hr & Hl & Hp).
      rewrite Hw, Hr, Hl, Hp. clear IH Hw Hr Hl Hp E.
      assert (Hret : py_sum rzero radd (ep_rews a ++ [st_rew x]) = ret' (cur ++ [x])).
      { unfold episode_return. now rewrite map_app, Hcur. }
      assert (Hlen : length (ep_rews a ++ [st_rew x]) = length (cur ++ [x])).
      { now rewrite Hcur, !length_app, length_map. }
      unfold record_step. rewrite Hd. simpl. rewrite Hret, Hlen.
      unfold return_weights. simpl. rewrite <- !app_assoc.
      repeat split; reflexivity.
    + assert (E : ep_rews (record' a x) = map (@st_rew Obs Rew) (cur ++ [x])).
      { unfold record_step. rewrite Hd. simpl. now rewrite map_app, Hcur. }
      destruct (IH (record' a x) (cur ++ [x]) E) as (Hw & Hr & Hl & Hp).
      rewrite Hw, Hr, Hl, Hp.
      unfold record_step. rewrite Hd. simpl.
      repeat split; reflexivity.
Qed.

(** Cutting a trace yields episodes... *)
Lemma episodes_from_are_episodes (tr : list (Step Obs Rew)) : forall cur,
  Forall (fun x => st_done x = false) cur ->
  Forall (@is_episode _ _) (episodes_from cur tr).
Proof.
  induction tr as [|x tr IH]; intros cur Hcur; simpl; [constructor|].
  destruct (st_done x) eqn:Hd.
  - constructor.
    + exists cur, x. auto.
    + apply IH. constructor.
  - apply IH. apply Forall_app. split; [assumption|]. constructor; auto.
Qed.

(** ... and loses no step when the trace ends with the end of an episode. *)
Lemma episodes_from_concat (tr : list (Step Obs Rew)) : forall cur x,
  st_done x = true ->
  concat (episodes_from cur (tr ++ [x])) = cur ++ tr ++ [x].
Proof.
  induction tr as [|y tr IH]; intros cur x Hx; simpl.
  - rewrite Hx. simpl. now rewrite app_nil_r.
  - destruct (st_done y).
    + simpl. rewrite IH by assumption. simpl. now rewrite <- app_assoc.
    + rewrite IH by assumption. now rewrite <- app_assoc.
Qed.

Lemma rollout_length n : forall s, length (rollout' n s) = n.
Proof. induction n as [|n IH]; intros s; simpl; [reflexivity|]. now rewrite IH. Qed.

Lemma rollout_last_done n : forall s,
  done_at' n s = true ->
  exists tr x, rollout' n s = tr ++ [x] /\ st_done x = true.
Proof.
  induction n as [|n IH]; intros s Hd; [discriminate|].
  destruct n as [|n].
  - exists [], (snd (interact' s)). split; [reflexivity|assumption].
  - rewrite done_at_SS in Hd. apply IH in Hd as (tr & x & Htr & Hx).
    exists (snd (interact' s) :: tr), x. split; [|assumption].
    change (rollout' (S (S n)) s)
      with (snd (interact' s) :: rollout' (S n) (fst (interact' s))).
    now rewrite Htr.
Qed.

Lemma return_weights_length (eps : list (list (Step Obs Rew))) :
  length (return_weights rzero radd eps) = length (concat eps).
Proof.
  unfold return_weights. induction eps as [|ep eps IH]; simpl; [reflexivity|].
  now rewrite !length_app, repeat_length, IH.
Qed.

Lemma list_sum_lengths (eps : list (list (Step Obs Rew))) :
  list_sum (map (@length _) eps) = length (concat eps).
Proof.
  induction eps as [|ep eps IH]; simpl; [reflexivity|].
  now rewrite length_app, IH.
Qed.

(** Everything a finished run of the loop, started with empty lists,
    leaves behind. *)
Lemma collect_batch fuel s s' a' :
  collect' fuel s (empty_acc Obs Rew) = Some (s', a') ->
  exists n, (1 <= n <= fuel)%nat /\
    let tr := rollout' n s in
    s' = sim_after' n s /\
    first_boundary gym get_action render exceeded s n /\
    batch_obs a' = map (@st_obs _ _) tr /\
    batch_acts a' = map (@st_act _ _) tr /\
    concat (episodes tr) = tr /\
    Forall (@is_episode _ _) (episodes tr) /\
    batch_weights a' = return_weights rzero radd (episodes tr) /\
    batch_rets a' = map ret' (episodes tr) /\
    batch_lens a' = map (@length _) (episodes tr) /\
    printed a' = map (@length _) (episodes tr).
Proof.
  intros H. apply collect_run in H as (n & Hn & Hs & Ha & Hd & Hsz & Hmin).
  simpl in Hsz, Hmin.
  exists n. split; [assumption|]. cbv zeta.
  destruct (record_all_obs (rollout' n s) (empty_acc Obs Rew)) as [Ho Hac].
  destruct (record_all_episodes (rollout' n s) (empty_acc Obs Rew) [] eq_refl)
    as (Hw & Hr & Hl & Hp).
  rewrite <- Ha in *. simpl in *.
  destruct (rollout_last_done _ _ Hd) as (tr & x & Htr & Hx).
  repeat split; try assumption.
  - unfold episodes. rewrite Htr. now rewrite episodes_from_concat.
  - apply episodes_from_are_episodes. constructor.
Qed.

(** In particular the three lists handed to the loss line up. *)
Lemma collect_batch_lengths fuel s s' a' :
  collect' fuel s (empty_acc Obs Rew) = Some (s', a') ->
  length (batch_acts a') = length (batch_obs a') /\
  length (batch_weights a') = length (batch_obs a').
Proof.
  intros H. apply collect_batch in H as (n & _ & H). cbv zeta in H.
  destruct H as (_ & _ & Ho & Ha & Hc & _ & Hw & _).
  rewrite Ho, Ha, Hw, return_weights_length, Hc, !length_map.
  split; reflexivity.
Qed.

(** C2 (as amended): a finished run of the loop never stops inside an
    episode, and the number of collected steps is the first episode end at
    which the step count is strictly greater than [batch_size]. *)
Theorem collect_stops_at_first_boundary fuel s s' a' :
  collect' fuel s (empty_acc Obs Rew) = Some (s', a') ->
  first_boundary gym get_action render exceeded s (length (batch_obs a')).
Proof.
  intros H. apply collect_batch in H as (n & _ & H). cbv zeta in H.
  destruct H as (_ & Hfb & Ho & _).
  rewrite Ho, length_map, rollout_length. exact Hfb.
Qed.

(** C3: the recorded steps are those of the interaction, they split into
    whole episodes, and each step of an episode is given that episode's
    total sum of rewards as its weight. *)
Theorem weights_are_episode_returns fuel s s' a' :
  collect' fuel s (empty_acc Obs Rew) = Some (s', a') ->
  exists tr,
    tr = rollout' (length tr) s /\
    batch_obs a' = map (@st_obs _ _) tr /\
    batch_acts a' = map (@st_act _ _) tr /\
    concat (episodes tr) = tr /\
    Forall (@is_episode _ _) (episodes tr) /\
    batch_weights a' =
      flat_map (fun ep => repeat (py_sum rzero radd (map (@st_rew _ _) ep)) (length ep))
               (episodes tr).
Proof.
  intros H. apply collect_batch in H as (n & _ & H). cbv zeta in H.
  destruct H as (_ & _ & Ho & Ha & Hc & He & Hw & _).
  exists (rollout' n s). rewrite rollout_length.
  repeat split; assumption.
Qed.

(** C10: when the loop is left, observations, actions and weights have the
    same length, which is the sum of the recorded episode lengths. *)
Theorem batch_lists_aligned fuel s s' a' :
  collect' fuel s (empty_acc Obs Rew) = Some (s', a') ->
  length (batch_obs a') = length (batch_acts a') /\
  length (batch_weights a') = length (batch_obs a') /\
  length (batch_obs a') = list_sum (batch_lens a').
Proof.
  intros H. apply collect_batch in H as (n & _ & H). cbv zeta in H.
  destruct H as (_ & _ & Ho & Ha & Hc & _ & Hw & _ & Hl & _).
  rewrite Ho, Ha, Hw, Hl, return_weights_length, list_sum_lengths, Hc.
  rewrite !length_map. repeat split; reflexivity.
Qed.
End CollectorFacts.

(** *** The two-step stub environment *)

Lemma stub_collect :
  collect 0 Rplus stub_gym stub_action false 3 4 stub_start (empty_acc unit R)
  = Some (stub_end, stub_batch).
Proof. reflexivity. Qed.

Lemma collect_stops_at_first_boundary_witness :
  first_boundary stub_gym stub_action false (fun k : nat => (3 < Z.of_nat k)%Z)
                 stub_start (length (batch_obs stub_batch)).
Proof.
  apply (@collect_stops_at_first_boundary unit StubEnv unit R 0 Rplus stub_gym
           stub_action false 3%Z 4%nat stub_start stub_end stub_batch).
  reflexivity.
Defined.

(** C2 (as stated) fails: with threshold 2 the second step ends an episode
    with 2 >= 2 steps collected, yet the loop goes on to 4 steps. *)
Lemma collect_passes_boundary_at_batch_size :
  exists s' a',
    collect 0 Rplus stub_gym stub_action false 2 4 stub_start (empty_acc unit R)
    = Some (s', a') /\
    ~ first_boundary stub_gym stub_action false (fun k : nat => (2 <= Z.of_nat k)%Z)
                     stub_start (length (batch_obs a')).
Proof.
  exists stub_end, stub_batch. split; [reflexivity|].
  intros (_ & _ & Hmin).
  specialize (Hmin 2%nat eq_refl). simpl in Hmin. lia.
Qed.

Lemma weights_are_episode_returns_witness :
  exists tr,
    tr = rollout stub_gym stub_action false (length tr) stub_start /\
    batch_obs stub_batch = map (@st_obs _ _) tr /\
    batch_acts stub_batch = map (@st_act _ _) tr /\
    concat (episodes tr) = tr /\
    Forall (@is_episode _ _) (episodes tr) /\
    batch_weights stub_batch =
      flat_map (fun ep => repeat (py_sum 0 Rplus (map (@st_rew _ _) ep)) (length ep))
               (episodes tr).
Proof.
  apply (@weights_are_episode_returns unit StubEnv unit R 0 Rplus stub_gym
           stub_action false 3%Z 4%nat stub_start stub_end stub_batch).
  reflexivity.
Defined.

Lemma batch_lists_aligned_witness :
  length (batch_obs stub_batch) = length (batch_acts stub_batch) /\
  length (batch_weights stub_batch) = length (batch_obs stub_batch) /\
  length (batch_obs stub_batch) = list_sum (batch_lens stub_batch).
Proof.
  apply (@batch_lists_aligned unit StubEnv unit R 0 Rplus stub_gym
           stub_action false 3%Z 4%nat stub_start stub_end stub_batch).
  reflexivity.
Defined.

(** One iteration of the loop on the two-step environment, for a policy
    that is not known. *)
Ltac two_step_iteration get_action render :=
  rewrite collect_unfold; unfold interact;
  cbn [s_obs s_rng s_env s_finished_rendering stub_gym step reset render_frame];
  match goal with
  | |- context [get_action tt ?r] =>
    let a := fresh "act" in
    let r' := fresh "rng" in
    destruct (get_action tt r) as [a r']
  end;
  repeat match goal with
         | |- context [if ?b && render then ?e else ?e] =>
           replace (if b && render then e else e) with e
             by (destruct render; destruct b; reflexivity)
         end;
  cbn -[Rplus IZR collect].

(** C5: on the two-step environment with reward 1 per step and threshold 3,
    whatever the policy, one pass of the loop collects two whole episodes,
    four steps, each with weight 2. *)
Theorem two_step_batch (Rng : Type) (get_action : unit -> Rng -> nat * Rng)
        (render : bool) (rng : Rng) (extra : nat) :
  exists s' a',
    collect 0 Rplus stub_gym get_action render 3 (4 + extra)
            (mkSim (TwoStep 0) tt rng false) (empty_acc unit R) = Some (s', a') /\
    length (batch_obs a') = 4%nat /\
    batch_lens a' = [2; 2]%nat /\
    batch_rets a' = [2; 2] /\
    batch_weights a' = [2; 2; 2; 2] /\
    (4 <= length (batch_obs a'))%nat /\ (2 <= length (batch_lens a'))%nat /\
    Forall (fun w => w = 2) (batch_weights a').
Proof.
  assert (E : 0 + 1 + 1 = 2) by lra.
  change (4 + extra)%nat with (S (S (S (S extra)))).
  do 4 two_step_iteration get_action render.
  eexists; eexists; split; [reflexivity|].
  cbn -[Rplus IZR]. rewrite !E.
  repeat split; try reflexivity; try lia.
  repeat constructor.
Qed.

(** *** The loss *)

Section LossFacts.
Variables Obs Rng : Type.
Variable torch : Torch Obs Rng.
Variable net : Net.

Lemma broadcast_same_length (A B : Type) (xs : list A) (ys : list B) :
  length xs = length ys -> broadcast xs ys = Some (combine xs ys).
Proof. intros H. unfold broadcast. now rewrite H, Nat.eqb_refl. Qed.

(** Pairing up by position is indexing by position. *)
Lemma products_by_index (lp : Obs -> nat -> R) (d : Obs) :
  forall (obs : list Obs) (act : list nat) (weights : list R),
  length act = length obs -> length weights = length obs ->
  map (fun p => fst p * snd p)
      (combine (map (fun oa => lp (fst oa) (snd oa)) (combine obs act)) weights)
  = map (fun i => lp (nth i obs d) (nth i act O) * nth i weights 0)
        (seq 0 (length obs)).
Proof.
  induction obs as [|o obs IH]; intros act weights Ha Hw.
  - reflexivity.
  - destruct act as [|a act]; [discriminate|].
    destruct weights as [|w weights]; [discriminate|].
    simpl. f_equal.
    rewrite <- seq_shift, map_map. apply IH; simpl in *; lia.
Qed.

(** With as many actions and weights as observations no shape error
    occurs. *)
Lemma compute_loss_aligned (theta : list R) (obs : list Obs)
      (act : list nat) (weights : list R) :
  length act = length obs -> length weights = length obs ->
  compute_loss torch net theta obs act weights
  = Some (- tensor_mean
              (map (fun p => fst p * snd p)
                   (combine (map (fun oa => log_prob torch net theta (fst oa) (snd oa))
                                 (combine obs act))
                            weights))).
Proof.
  intros Ha Hw. unfold compute_loss, log_prob_batch.
  rewrite broadcast_same_length by congruence.
  cbv beta iota delta [option_map].
  rewrite broadcast_same_length
    by (rewrite length_map, length_combine, Ha, Hw; lia).
  reflexivity.
Qed.

(** C4: on a batch (as many actions and weights as observations) the loss is
    the negated average of log-probability of the action taken times
    weight. *)
Theorem compute_loss_is_negated_mean (theta : list R) (obs : list Obs)
        (act : list nat) (weights : list R) (d : Obs) :
  length act = length obs -> length weights = length obs ->
  compute_loss torch net theta obs act weights
  = Some (loss_spec torch net theta obs act weights d).
Proof.
  intros Ha Hw. rewrite compute_loss_aligned by assumption.
  unfold loss_spec, tensor_mean.
  rewrite (products_by_index (log_prob torch net theta) d) by assumption.
  now rewrite length_map, length_seq.
Qed.
End LossFacts.

Lemma compute_loss_is_negated_mean_witness :
  compute_loss stub_torch [] [0] [tt; tt] [O; O] [2; 2]
  = Some (loss_spec stub_torch [] [0] [tt; tt] [O; O] [2; 2] tt).
Proof.
  apply (@compute_loss_is_negated_mean unit unit stub_torch [] [0]
           [tt; tt] [O; O] [2; 2] tt); reflexivity.
Defined.

(** With logits [0; 0] both actions have probability 1/2. *)
Example loss_two_steps :
  loss_spec stub_torch [] [0] [tt; tt] [O; O] [2; 2] tt = 2 * ln 2.
Proof.
  unfold loss_spec. simpl. unfold stub_log_prob. simpl.
  rewrite exp_0. replace (1 + 1) with 2 by lra. lra.
Qed.

(** *** The optimizer *)

Lemma adam_step_grad lr (s : Slot) : p_grad (adam_step lr s) = p_grad s.
Proof. unfold adam_step. destruct (p_grad s) eqn:E; [reflexivity|assumption]. Qed.


Lemma backward_from_data g : forall slots i,
  map p_data (backward_from i g slots) = map p_data slots.
Proof.
  induction slots as [|s slots IH]; intros i; simpl; [reflexivity|].
  now rewrite IH.
Qed.



(** [backward] adds the new gradient to what each buffer holds. *)
Lemma backward_from_accumulates g : forall slots i,
  map p_grad (backward_from i g slots)
  = map (fun p => Some (accumulated (snd p) (g (fst p))))
        (combine (seq i (length slots)) (map p_grad slots)).
Proof.
  induction slots as [|s slots IH]; intros i; simpl; [reflexivity|].
  rewrite IH. reflexivity.
Qed.

(** *** Epochs *)

Section TrainFacts.
Variables Obs Env Rng : Type.
Variable gym : Gym Env Obs R.
Variable torch : Torch Obs Rng.
Variable gym_make : string -> Error + Env.

Section EpochFacts.
Variable net : Net.
Variable lr : R.
Variable batch_size : Z.
Variable render : bool.

Local Abbreviation epoch := (train_one_epoch gym torch net lr batch_size render).
Local Abbreviation loop := (epoch_loop gym torch net lr batch_size render).
Local Abbreviation start w :=
  (mkSim (fst (reset gym (w_env w))) (snd (reset gym (w_env w))) (w_rng w) false).
Local Abbreviation run theta :=
  (collect 0 Rplus gym (sample torch net theta) render batch_size).

(** What a finished epoch did: one run of the loop from a reset
    environment, one loss, one [backward], one optimizer step. *)
Lemma train_one_epoch_inv fuel (w w1 : World Env Rng) loss rets lens :
  epoch fuel w = Ret (w1, (loss, rets, lens)) ->
  exists s a,
    run (params w) fuel (start w) (empty_acc Obs R) = Some (s, a) /\
    compute_loss torch net (params w) (batch_obs a) (batch_acts a) (batch_weights a)
    = Some loss /\
    w1 = mkWorld (s_env s) (s_rng s)
                 (map (adam_step lr)
                      (backward (batch_grad torch net (params w) a) (w_slots w)))
                 (w_stdout w ++ map EpisodeLength (printed a)) /\
    rets = batch_rets a /\ lens = batch_lens a.
Proof.
  unfold train_one_epoch. destruct (reset gym (w_env w)) as [env0 obs0]. simpl.
  destruct (collect _ _ _ _ _ _ _ _ _) as [[s a]|] eqn:Hc; [|discriminate].
  destruct (compute_loss _ _ _ _ _ _) as [l|] eqn:Hl; [|discriminate].
  intros H. inversion H; subst. exists s, a. repeat split; assumption.
Qed.

(** The loss of a collected batch never hits a shape error. *)
Lemma train_one_epoch_never_raises fuel (w : World Env Rng) e :
  epoch fuel w <> Raise e.
Proof.
  unfold train_one_epoch. destruct (reset gym (w_env w)) as [env0 obs0].
  destruct (collect _ _ _ _ _ _ _ _ _) as [[s a]|] eqn:Hc; [|discriminate].
  apply collect_batch_lengths in Hc as [Ha Hw].
  rewrite compute_loss_aligned by assumption. discriminate.
Qed.





Lemma grads_after_epoch g (slots : list Slot) :
  map p_grad (map (adam_step lr) (backward g slots))
  = map (fun p => Some (accumulated (snd p) (g (fst p))))
        (combine (seq 0 (length slots)) (map p_grad slots)).
Proof.
  unfold backward. rewrite <- backward_from_accumulates, map_map.
  apply map_ext. intros s. apply adam_step_grad.
Qed.

(** X18: After an epoch every gradient buffer holds what it held before plus the
    gradient of this epoch's loss: nothing resets it. *)
Lemma epoch_accumulates_gradient fuel (w w1 : World Env Rng) r :
  epoch fuel w = Ret (w1, r) ->
  exists s a,
    run (params w) fuel (start w) (empty_acc Obs R) = Some (s, a) /\
    map p_grad (w_slots w1)
    = map (fun p => Some (accumulated (snd p) (batch_grad torch net (params w) a (fst p))))
          (combine (seq 0 (length (w_slots w))) (map p_grad (w_slots w))).
Proof.
  destruct r as [[loss rets] lens]. intros H.
  apply train_one_epoch_inv in H as (s & a & Hc & _ & Hw1 & _).
  exists s, a. split; [assumption|]. subst w1. simpl. apply grads_after_epoch.
Qed.

End EpochFacts.

Lemma setup_inv env_name hidden_sizes rng0 net (w0 : World Env Rng) :
  setup gym torch gym_make env_name hidden_sizes rng0 = Ret (net, w0) ->
  exists theta0, w_slots w0 = map fresh_slot theta0 /\ w_stdout w0 = [].
Proof.
  unfold setup. destruct (gym_make env_name) as [e|env]; [discriminate|].
  destruct (observation_space gym env) as [shape| |]; try discriminate.
  destruct (action_space gym env) as [|n_acts|]; try discriminate.
  destruct shape as [|obs_dim shape]; [discriminate|].
  destruct (init_params torch _ rng0) as [theta0 rng1].
  intros H. inversion H; subst. exists theta0. split; reflexivity.
Qed.

Lemma epoch_loop_never_raises net lr batch_size render fuel e :
  forall idx (w : World Env Rng),
  epoch_loop gym torch net lr batch_size render fuel idx w <> Raise e.
Proof.
  induction idx as [|i idx IH]; intros w; simpl; [discriminate|].
  destruct (train_one_epoch _ _ _ _ _ _ fuel w)
    as [[w1 [[loss rets] lens]]|e'|] eqn:He.
  - apply IH.
  - exfalso. revert He. apply train_one_epoch_never_raises.
  - discriminate.
Qed.

(** C7: once the environment is made, [train] fails the first assertion
    when the observation space is not a [Box], the second when the action
    space is not [Discrete], whatever the fuel (so before any step of
    training); when both hold it never raises an assertion error. *)
Theorem train_checks_spaces fuel env_name hidden_sizes lr epochs batch_size
        render rng0 env :
  gym_make env_name = inr env ->
  let out := train gym torch gym_make fuel env_name hidden_sizes lr epochs
                   batch_size render rng0 in
  match observation_space gym env with
  | Box _ =>
    match action_space gym env with
    | Discrete _ => forall msg, out <> Raise (AssertionError msg)
    | _ => out = Raise (AssertionError msg_act)
    end
  | _ => out = Raise (AssertionError msg_obs)
  end.
Proof.
  intros Hmake. cbv zeta. unfold train, setup. rewrite Hmake.
  destruct (observation_space gym env) as [shape| |]; try reflexivity.
  destruct (action_space gym env) as [|n_acts|]; try reflexivity.
  intros msg. destruct shape as [|obs_dim shape]; [discriminate|].
  destruct (init_params torch _ rng0) as [theta0 rng1].
  apply epoch_loop_never_raises.
Qed.

End TrainFacts.

(** *** Training on the stub environment *)

Lemma stub_setup :
  setup stub_gym stub_torch stub_make "TwoStep-v0" [32]%nat tt
  = Ret (stub_net, stub_world0).
Proof. reflexivity. Qed.

Lemma stub_epoch lr (w : World StubEnv unit) n :
  w_env w = TwoStep n ->
  train_one_epoch stub_gym stub_torch stub_net lr 3 false 4 w
  = Ret (mkWorld (TwoStep 0) tt
                 (map (adam_step lr)
                      (backward (batch_grad stub_torch stub_net (params w) stub_batch)
                                (w_slots w)))
                 (w_stdout w ++ [EpisodeLength 2; EpisodeLength 2]),
         (stub_loss (params w), batch_rets stub_batch, batch_lens stub_batch)).
Proof.
  intros H. unfold train_one_epoch. rewrite H.
  destruct w as [e [] slots out]. reflexivity.
Qed.

Lemma stub_epoch_loop lr : forall idx (w : World StubEnv unit) n,
  w_env w = TwoStep n ->
  epoch_loop stub_gym stub_torch stub_net lr 3 false 4 idx w
  = Ret (fold_left (fun w i => stub_next lr i w) idx w).
Proof.
  induction idx as [|i idx IH]; intros w n H; simpl; [reflexivity|].
  rewrite (stub_epoch lr w H). now rewrite (IH _ O).
Qed.

(** Training on the stub environment finishes for any number of epochs. *)
Lemma stub_train_finishes lr epochs :
  stub_train lr epochs = Ret (stub_final lr epochs).
Proof.
  unfold train. rewrite stub_setup.
  now rewrite (stub_epoch_loop lr _ stub_world0 (n := O)).
Qed.

Lemma train_checks_spaces_witness :
  train stub_gym stub_torch stub_make 0 "Grid-v0" [32]%nat (1 / 100) 50 5000 false tt
  = Raise (AssertionError msg_obs).
Proof.
  exact (@train_checks_spaces unit StubEnv unit stub_gym stub_torch stub_make
           0%nat "Grid-v0" [32]%nat (1 / 100) 50%Z 5000%Z false tt Grid eq_refl).
Defined.


(** The stub's gradient is the derivative of the stub's loss in the
    parameter, as autograd's would be. *)
Lemma derivable_pt_lim_eq (f g : R -> R) x l :
  (forall y, f y = g y) -> derivable_pt_lim f x l -> derivable_pt_lim g x l.
Proof.
  intros E H eps Heps. destruct (H eps Heps) as [delta Hd].
  exists delta. intros h Hh Hlt. rewrite <- !E. now apply Hd.
Qed.

Lemma logistic_derivative t :
  derivable_pt_lim (fun x => x - ln (exp x + 1)) t (1 - sigmoid t).
Proof.
  assert (He : 0 < exp t) by apply exp_pos.
  replace (1 - sigmoid t) with (1 - / (exp t + 1) * (exp t + 0))
    by (unfold sigmoid; field; lra).
  apply (derivable_pt_lim_minus id (comp ln (exp + fct_cte 1))%F).
  - apply derivable_pt_lim_id.
  - apply (derivable_pt_lim_comp (exp + fct_cte 1)%F ln).
    + apply derivable_pt_lim_plus;
        [apply derivable_pt_lim_exp|apply derivable_pt_lim_const].
    + apply derivable_pt_lim_ln. unfold plus_fct, fct_cte. lra.
Qed.

Lemma stub_loss_computed theta :
  compute_loss stub_torch stub_net theta (batch_obs stub_batch)
               (batch_acts stub_batch) (batch_weights stub_batch)
  = Some (stub_loss theta).
Proof. reflexivity. Qed.

Lemma stub_grad_is_derivative t :
  derivable_pt_lim (fun x => stub_loss [x]) t (stub_grad [t]).
Proof.
  apply derivable_pt_lim_eq
    with (f := mult_real_fct (- 2) (fun x => x - ln (exp x + 1))).
  - intros y. unfold mult_real_fct, stub_loss, tensor_mean, stub_log_prob.
    simpl. lra.
  - replace (stub_grad [t]) with (- 2 * (1 - sigmoid t))
      by (unfold stub_grad, stub_loss_grad, tensor_mean; simpl; lra).
    apply derivable_pt_lim_scal. apply logistic_derivative.
Qed.

(** The gradient of the stub loss is never 0. *)
Lemma stub_grad_negative theta : stub_grad theta < 0.
Proof.
  unfold stub_grad, stub_loss_grad, tensor_mean, sigmoid. simpl.
  set (e := exp (nth 0 theta 0)).
  assert (He : 0 < e) by apply exp_pos.
  assert (Hi : 0 < / (e + 1)) by (apply Rinv_0_lt_compat; lra).
  replace (e / (e + 1)) with (1 - / (e + 1)) by (field; lra).
  lra.
Qed.


(** C1 fails on the code: after the second epoch on the stub environment the
    buffer the optimizer has just stepped on holds the gradient of the first
    epoch's loss plus that of the second epoch's loss, which is not the
    gradient of the second epoch's loss. *)
Theorem second_step_uses_accumulated_gradient :
  let lr := 1 / 100 in
  let g0 := stub_grad (params stub_world0) in
  let g1 := stub_grad (params (stub_final lr 1)) in
  stub_train lr 2 = Ret (stub_final lr 2) /\
  batch_grad stub_torch stub_net (params stub_world0) stub_batch 0 = g0 /\
  batch_grad stub_torch stub_net (params (stub_final lr 1)) stub_batch 0 = g1 /\
  map p_grad (w_slots (stub_final lr 1)) = [Some g0] /\
  map p_grad (w_slots (stub_final lr 2)) = [Some (g0 + g1)] /\
  g0 + g1 <> g1.
Proof.
  cbv zeta.
  split; [apply stub_train_finishes|].
  split; [reflexivity|]. split; [reflexivity|].
  split; [reflexivity|]. split; [reflexivity|].
  pose proof (stub_grad_negative (params stub_world0)). lra.
Qed.

(** ** Part IV: further properties of the experience loop *)

Section CollectorMore.
Variables Obs Env Rng Rew : Type.
Variable rzero : Rew.
Variable radd : Rew -> Rew -> Rew.
Variable gym : Gym Env Obs Rew.
Variable get_action : Obs -> Rng -> nat * Rng.
Variable render : bool.
Variable batch_size : Z.

Local Abbreviation collect' := (collect rzero radd gym get_action render batch_size).
Local Abbreviation interact' := (interact gym get_action render).
Local Abbreviation rollout' := (rollout gym get_action render).
Local Abbreviation done_at' := (done_at gym get_action render).

Lemma flat_map_combine_map (A B C D : Type) (h : B * C -> list D)
      (f : A -> B) (g : A -> C) (l : list A) :
  flat_map h (combine (map f l) (map g l)) = flat_map (fun x => h (f x, g x)) l.
Proof. induction l as [|x l IH]; simpl; [reflexivity|]. now rewrite IH. Qed.

Lemma is_episode_nonempty (ep : list (Step Obs Rew)) :
  is_episode ep -> (1 <= length ep)%nat.
Proof.
  intros (body & x & E & _). subst ep. rewrite length_app. simpl. lia.
Qed.

(** The step that closes the [k+1]-th position of the interaction. *)
Lemma done_at_nth : forall k n s x,
  nth_error (rollout' n s) k = Some x -> done_at' (S k) s = st_done x.
Proof.
  induction k as [|k IH]; intros n s x H; destruct n as [|n]; try discriminate.
  - simpl in H. inversion H. reflexivity.
  - simpl in H. change (done_at' (S (S k)) s)
      with (done_at' (S k) (fst (interact' s))).
    now apply IH with n.
Qed.

(** A non-empty run of whole episodes ends with a step that ends an
    episode. *)
Lemma concat_episodes_last (pre : list (list (Step Obs Rew))) :
  Forall (@is_episode _ _) pre -> pre <> [] ->
  exists front x, concat pre = front ++ [x] /\ st_done x = true.
Proof.
  intros Hall Hne.
  destruct (exists_last Hne) as (pre' & ep & E). subst pre.
  apply Forall_app in Hall as [_ Hep]. inversion Hep as [|? ? Hi _]; subst.
  destruct Hi as (body & x & E & Hx & _). subst ep.
  exists (concat pre' ++ body), x. split; [|assumption].
  rewrite concat_app. simpl. now rewrite app_nil_r, app_assoc.
Qed.

(** Before its last episode the batch is not yet large enough: a run of
    whole episodes that is followed by more episodes has at most
    [batch_size] steps. *)
Lemma collect_proper_prefix_small fuel s s' a' :
  collect' fuel s (empty_acc Obs Rew) = Some (s', a') ->
  exists n,
    let tr := rollout' n s in
    length (batch_obs a') = length tr /\
    batch_rets a' = map (episode_return rzero radd) (episodes tr) /\
    batch_lens a' = map (@length _) (episodes tr) /\
    concat (episodes tr) = tr /\
    Forall (@is_episode _ _) (episodes tr) /\
    episodes tr <> [] /\
    forall pre post,
      episodes tr = pre ++ post -> pre <> [] -> post <> [] ->
      (Z.of_nat (length (concat pre)) <= batch_size)%Z.
Proof.
  intros H.
  apply collect_batch in H as (n & Hn & H). cbv zeta in H.
  destruct H as (_ & (Hd & Hsz & Hmin') & Ho & _ & Hc & He & _ & Hr & Hl & _).
  exists n. cbv zeta. rewrite Ho, length_map.
  repeat split; try assumption.
  - intros E. rewrite E in Hc. simpl in Hc.
    assert (Hlen : length (rollout' n s) = n) by apply rollout_length.
    rewrite <- Hc in Hlen. simpl in Hlen. lia.
  - intros pre post E Hpre Hpost.
    rewrite E in He. apply Forall_app in He as [Hp Hq].
    destruct (concat_episodes_last Hp Hpre) as (front & x & Ef & Hx).
    destruct post as [|ep post]; [congruence|].
    inversion Hq as [|? ? Hep _]; subst. apply is_episode_nonempty in Hep.
    assert (Htr : rollout' n s = front ++ [x] ++ concat (ep :: post)).
    { rewrite <- Hc, E, concat_app, Ef. now rewrite <- app_assoc. }
    assert (Hlen : length (rollout' n s) = n) by apply rollout_length.
    rewrite Htr, !length_app in Hlen. simpl in Hlen. rewrite length_app in Hlen.
    assert (Hk : done_at' (S (length front)) s = true).
    { rewrite <- Hx. apply done_at_nth with n.
      rewrite Htr, nth_error_app2 by lia. now rewrite Nat.sub_diag. }
    rewrite Ef, length_app. simpl.
    destruct (Z.le_gt_cases (Z.of_nat (length front + 1)) batch_size) as [|Hgt];
      [assumption|].
    exfalso.
    assert (n <= S (length front))%nat; [|lia].
    apply Hmin'; [assumption|lia].
Qed.

(** X6: The lists returned for logging: one return and one length per completed
    episode, in order; the lengths are also what was printed; and the
    weights are each return repeated length times. *)
Theorem batch_returns_and_lengths fuel s s' a' :
  collect' fuel s (empty_acc Obs Rew) = Some (s', a') ->
  exists tr,
    tr = rollout' (length tr) s /\
    batch_rets a' = map (fun ep => py_sum rzero radd (map (@st_rew _ _) ep)) (episodes tr) /\
    batch_lens a' = map (@length _) (episodes tr) /\
    printed a' = batch_lens a' /\
    batch_weights a' =
      flat_map (fun p => repeat (fst p) (snd p))
               (combine (batch_rets a') (batch_lens a')).
Proof.
  intros H. apply collect_batch in H as (n & _ & H). cbv zeta in H.
  destruct H as (_ & _ & _ & _ & _ & _ & Hw & Hr & Hl & Hp).
  exists (rollout' n s). rewrite rollout_length.
  repeat split; try assumption; try congruence.
  rewrite Hw, Hr, Hl. unfold return_weights.
  now rewrite flat_map_combine_map.
Qed.

(** X7: A finished loop has collected at least one whole episode and one step;
    no recorded episode is empty.  So the means taken afterwards are never
    over an empty list. *)
Theorem batch_is_not_empty fuel s s' a' :
  collect' fuel s (empty_acc Obs Rew) = Some (s', a') ->
  (1 <= length (batch_obs a'))%nat /\
  (1 <= length (batch_rets a'))%nat /\
  length (batch_rets a') = length (batch_lens a') /\
  Forall (fun l => (1 <= l)%nat) (batch_lens a').
Proof.
  intros H. apply collect_batch in H as (n & Hn & H). cbv zeta in H.
  destruct H as (_ & _ & Ho & _ & Hc & He & _ & Hr & Hl & _).
  rewrite Ho, Hr, Hl, !length_map, rollout_length.
  repeat split; try lia.
  - destruct (episodes (rollout' n s)) as [|ep eps] eqn:E; [|simpl; lia].
    simpl in Hc. assert (Hlen : length (rollout' n s) = n) by apply rollout_length.
    rewrite <- Hc in Hlen. simpl in Hlen. lia.
  - apply Forall_map. eapply Forall_impl; [|exact He].
    intros ep. apply is_episode_nonempty.
Qed.

(** X8: The batch is minimal: without its last episode it has at most
    [batch_size] steps (none at all when [batch_size] is negative). *)
Theorem batch_without_last_episode_is_small fuel s s' a' :
  collect' fuel s (empty_acc Obs Rew) = Some (s', a') ->
  (Z.of_nat (list_sum (removelast (batch_lens a'))) <= Z.max 0 batch_size)%Z.
Proof.
  intros H. apply collect_proper_prefix_small in H as (n & H). cbv zeta in H.
  destruct H as (_ & _ & Hl & _ & _ & Hne & Hsmall).
  rewrite Hl. destruct (exists_last Hne) as (pre & ep & E). rewrite E.
  rewrite map_app. simpl. rewrite removelast_last, list_sum_lengths.
  destruct pre as [|p pre]; [simpl; lia|].
  assert (Z.of_nat (length (concat (p :: pre))) <= batch_size)%Z
    by (apply (Hsmall (p :: pre) [ep] E); discriminate).
  lia.
Qed.

(** X9: With [batch_size <= 0] every batch is exactly one episode. *)
Theorem nonpositive_batch_size_one_episode fuel s s' a' :
  (batch_size <= 0)%Z ->
  collect' fuel s (empty_acc Obs Rew) = Some (s', a') ->
  batch_lens a' = [length (batch_obs a')] /\ length (batch_rets a') = 1%nat.
Proof.
  intros Hbs H.
  apply collect_proper_prefix_small in H as (n & H). cbv zeta in H.
  destruct H as (Ho & Hr & Hl & Hc & He & Hne & Hsmall).
  destruct (episodes (rollout' n s)) as [|ep [|ep2 rest]] eqn:E.
  - congruence.
  - rewrite Hl, Hr, Ho, <- Hc. simpl. now rewrite app_nil_r.
  - exfalso. inversion He as [|? ? Hep _]; subst.
    apply is_episode_nonempty in Hep.
    assert (Z.of_nat (length (concat [ep])) <= batch_size)%Z
      by (apply (Hsmall [ep] (ep2 :: rest)); [reflexivity|discriminate|discriminate]).
    simpl in *. rewrite app_nil_r in *. lia.
Qed.

(** X10: The loop leaves within [fuel] iterations exactly when, within [fuel]
    steps, some step ends an episode with more than [batch_size] steps
    taken. *)
Theorem collect_finishes_iff fuel s :
  (exists r, collect' fuel s (empty_acc Obs Rew) = Some r) <->
  (exists k, (k <= fuel)%nat /\ done_at' k s = true /\ (batch_size < Z.of_nat k)%Z).
Proof.
  split.
  - intros [[s' a'] H].
    apply collect_run in H as (n & Hn & _ & _ & Hd & Hsz & _).
    simpl in Hsz. exists n. repeat split; [lia|assumption|assumption].
  - intros (k & Hk & Hd & Hsz).
    apply (@collect_total _ _ _ _ rzero radd gym get_action render batch_size
             fuel k s (empty_acc Obs Rew) Hk Hd Hsz).
Qed.

Lemma interact_not_done s :
  sr_terminated
    (snd (step gym
               (if negb (s_finished_rendering s) && render
                then render_frame gym (s_env s) else s_env s)
               (fst (get_action (s_obs s) (s_rng s))))) = false ->
  st_done (snd (interact' s)) = false.
Proof.
  unfold interact.
  destruct (get_action (s_obs s) (s_rng s)) as [act rng1]. simpl.
  destruct (step gym _ act) as [env2 r]. simpl. intros ->. reflexivity.
Qed.

(** X11: The loop has no other exit: if the environment never reports an episode
    as terminated, no amount of iterations ends the loop. *)
Theorem collect_needs_termination fuel :
  (forall e act, sr_terminated (snd (step gym e act)) = false) ->
  forall s a, collect rzero radd gym get_action render batch_size fuel s a = None.
Proof.
  intros Hnever. induction fuel as [|fuel IH]; intros s a; [reflexivity|].
  rewrite collect_unfold. cbv zeta.
  rewrite interact_not_done by apply Hnever. simpl. apply IH.
Qed.

(** X12: The loop never looks at the [truncated] flag of a step. *)
Theorem collect_ignores_truncated (f : Env -> nat -> bool) fuel :
  forall s a,
    collect rzero radd (retruncate f gym) get_action render batch_size fuel s a
    = collect' fuel s a.
Proof.
  induction fuel as [|fuel IH]; intros s a; [reflexivity|].
  simpl. destruct (get_action (s_obs s) (s_rng s)) as [act rng1].
  destruct (step gym _ act) as [env2 r]. simpl.
  destruct (sr_terminated r).
  - destruct (reset gym env2) as [env3 obs3].
    destruct (batch_size <? _)%Z; [reflexivity|apply IH].
  - apply IH.
Qed.

(** X13: Without the [render] argument the environment's [render] is never
    called: the loop runs the same whatever [render] would do. *)
Theorem collect_render_off (f : Env -> Env) fuel :
  forall s a,
    collect rzero radd (rerender f gym) get_action false batch_size fuel s a
    = collect rzero radd gym get_action false batch_size fuel s a.
Proof.
  induction fuel as [|fuel IH]; intros s a; [reflexivity|].
  simpl. rewrite andb_false_r.
  destruct (get_action (s_obs s) (s_rng s)) as [act rng1].
  destruct (step gym _ act) as [env2 r].
  destruct (sr_terminated r).
  - destruct (reset gym env2) as [env3 obs3].
    destruct (batch_size <? _)%Z; [reflexivity|apply IH].
  - apply IH.
Qed.

(** Once the loop has set [finished_rendering_this_epoch], it runs as if
    [render] were off. *)
Lemma collect_after_rendering (f : Env -> Env) fuel :
  forall s a,
    s_finished_rendering s = true ->
    collect' fuel s a
    = collect rzero radd (rerender f gym) get_action false batch_size fuel s a.
Proof.
  induction fuel as [|fuel IH]; intros s a Hfin; [reflexivity|].
  simpl. rewrite Hfin. simpl.
  destruct (get_action (s_obs s) (s_rng s)) as [act rng1].
  destruct (step gym _ act) as [env2 r].
  destruct (sr_terminated r).
  - destruct (reset gym env2) as [env3 obs3].
    destruct (batch_size <? _)%Z; [reflexivity|now apply IH].
  - now apply IH.
Qed.
End CollectorMore.

Section RenderingFacts.
Variables Obs Env Rng Rew : Type.
Variable rzero : Rew.
Variable radd : Rew -> Rew -> Rew.
Variable gym : Gym Env Obs Rew.
Variable get_action : Obs -> Rng -> nat * Rng.
Variable batch_size : Z.

(** Until an episode has ended, a step of the loop with [render] on is a
    step on the environment that renders before every step. *)
Lemma interact_filmed (s : Sim Obs Env Rng) :
  s_finished_rendering s = false ->
  interact gym get_action true s = interact (filmed gym) get_action false s.
Proof. intros H. unfold interact. rewrite H. reflexivity. Qed.

Lemma interact_keeps_flag (g : Gym Env Obs Rew) render (s : Sim Obs Env Rng) :
  st_done (snd (interact g get_action render s)) = false ->
  s_finished_rendering (fst (interact g get_action render s))
  = s_finished_rendering s.
Proof.
  unfold interact.
  destruct (get_action (s_obs s) (s_rng s)) as [act rng1].
  destruct (step g _ act) as [env2 r].
  destruct (sr_terminated r); [|reflexivity].
  destruct (reset g env2) as [env3 obs3]. discriminate.
Qed.

Lemma interact_sets_flag (g : Gym Env Obs Rew) render (s : Sim Obs Env Rng) :
  st_done (snd (interact g get_action render s)) = true ->
  s_finished_rendering (fst (interact g get_action render s)) = true.
Proof.
  unfold interact.
  destruct (get_action (s_obs s) (s_rng s)) as [act rng1].
  destruct (step g _ act) as [env2 r].
  destruct (sr_terminated r); [|discriminate].
  destruct (reset g env2) as [env3 obs3]. reflexivity.
Qed.

(** X14: Only the first episode of an epoch is rendered.  With [render] on,
    the loop runs the [k] steps of the first episode as on the environment
    that renders before every step; from there on, unless the batch is large
    enough already, it runs as the loop with [render] off does, whatever
    [env.render()] would do. *)
Theorem collect_renders_first_episode_only (f : Env -> Env) fuel :
  forall k (s : Sim Obs Env Rng) (a : Acc Obs Rew),
  s_finished_rendering s = false ->
  done_at (filmed gym) get_action false k s = true ->
  (forall j, (j < k)%nat -> done_at (filmed gym) get_action false j s = false) ->
  collect rzero radd gym get_action true batch_size (k + fuel) s a
  = let s' := sim_after (filmed gym) get_action false k s in
    let a' := fold_left (record_step rzero radd)
                        (rollout (filmed gym) get_action false k s) a in
    if (batch_size <? Z.of_nat (length (batch_obs a) + k))%Z
    then Some (s', a')
    else collect rzero radd (rerender f gym) get_action false batch_size fuel s' a'.
Proof.
  induction k as [|k IH]; intros s a Hflag Hdone Hfirst; [discriminate|].
  cbv zeta. change (S k + fuel)%nat with (S (k + fuel)).
  rewrite collect_unfold. cbv zeta.
  rewrite (interact_filmed s Hflag).
  set (x := snd (interact (filmed gym) get_action false s)).
  set (s1 := fst (interact (filmed gym) get_action false s)).
  assert (Hlen : (length (batch_obs (record_step rzero radd a x))
                  = S (length (batch_obs a)))%nat).
  { rewrite record_step_obs, length_app. simpl. lia. }
  destruct k as [|k].
  - simpl in Hdone. fold x in Hdone. rewrite Hdone. simpl andb.
    rewrite Hlen. replace (length (batch_obs a) + 1)%nat
      with (S (length (batch_obs a))) by lia.
    simpl sim_after. simpl rollout. simpl fold_left. fold x s1.
    destruct (batch_size <? _)%Z; [reflexivity|].
    apply collect_after_rendering.
    apply interact_sets_flag. exact Hdone.
  - assert (Hx : st_done x = false) by (apply (Hfirst 1%nat); lia).
    rewrite Hx. simpl andb.
    rewrite (IH s1 (record_step rzero radd a x)).
    + cbv zeta. rewrite Hlen.
      replace (S (length (batch_obs a)) + S k)%nat
        with (length (batch_obs a) + S (S k))%nat by lia.
      reflexivity.
    + unfold s1. rewrite interact_keeps_flag; assumption.
    + exact Hdone.
    + intros j Hj. destruct j as [|j]; [reflexivity|].
      apply (Hfirst (S (S j))). lia.
Qed.
End RenderingFacts.

(** ** Part V: further properties of the network builder *)

Section BuilderMore.
Variable Activation : Type.
Variables activation output_activation : Activation.

Lemma mlp_stage_shift s0 (sizes : list nat) j :
  mlp_stage (s0 :: sizes) activation output_activation (S j)
  = mlp_stage sizes activation output_activation j.
Proof.
  unfold mlp_stage. simpl length. simpl nth.
  replace (Z.of_nat (S j) <? Z.of_nat (S (length sizes)) - 2)%Z
    with (Z.of_nat j <? Z.of_nat (length sizes) - 2)%Z; [reflexivity|].
  destruct (Z.ltb_spec (Z.of_nat j) (Z.of_nat (length sizes) - 2));
    destruct (Z.ltb_spec (Z.of_nat (S j)) (Z.of_nat (S (length sizes)) - 2));
    try reflexivity; lia.
Qed.

(** The builder, one stage at a time. *)
Lemma mlp_cons s0 s1 (rest : list nat) :
  mlp (s0 :: s1 :: rest) activation output_activation
  = Linear Activation s0 s1
    :: Act (match rest with [] => output_activation | _ :: _ => activation end)
    :: mlp (s1 :: rest) activation output_activation.
Proof.
  rewrite !mlp_flat_map. simpl length.
  replace (Z.to_nat (Z.of_nat (S (S (length rest))) - 1)) with (S (length rest)) by lia.
  replace (Z.to_nat (Z.of_nat (S (length rest)) - 1)) with (length rest) by lia.
  change (seq 0 (S (length rest))) with (0%nat :: seq 1 (length rest)).
  cbn [flat_map].
  rewrite <- seq_shift, flat_map_concat_map, map_map.
  rewrite (map_ext _ (mlp_stage (s1 :: rest) activation output_activation))
    by (intros j; apply mlp_stage_shift).
  rewrite <- flat_map_concat_map.
  assert (E : mlp_stage (s0 :: s1 :: rest) activation output_activation 0
              = [Linear Activation s0 s1;
                 Act (match rest with
                      | [] => output_activation
                      | _ :: _ => activation
                      end)]).
  { unfold mlp_stage. cbn [nth Nat.add]. do 3 f_equal.
    destruct rest as [|s2 rest]; cbn [length];
      match goal with |- context [(?x <? ?y)%Z] => destruct (Z.ltb_spec x y) end;
      try reflexivity; lia. }
  rewrite E. reflexivity.
Qed.

(** X1: The builder returns two layers per pair of consecutive sizes, and so no
    layer at all for fewer than two sizes. *)
Theorem mlp_layer_count (sizes : list nat) :
  length (mlp sizes activation output_activation) = (2 * (length sizes - 1))%nat /\
  (mlp sizes activation output_activation = [] <-> (length sizes <= 1)%nat).
Proof.
  assert (Hlen : length (mlp sizes activation output_activation)
                 = (2 * (length sizes - 1))%nat).
  { rewrite mlp_flat_map, flat_map_pairs_length by reflexivity.
    rewrite length_seq. lia. }
  split; [assumption|]. split.
  - intros E. rewrite E in Hlen. simpl in Hlen. lia.
  - intros Hle. apply length_zero_iff_nil. lia.
Qed.

Lemma net_out_dim_mlp (rest : list nat) : forall s0 s1 d,
  net_out_dim (mlp (s0 :: s1 :: rest) activation output_activation) d
  = if (d =? s0)%nat then Some (last (s1 :: rest) O) else None.
Proof.
  induction rest as [|s2 rest IH]; intros s0 s1 d; rewrite mlp_cons;
    simpl net_out_dim; destruct (Nat.eqb_spec d s0) as [->|Hne]; try reflexivity.
  rewrite IH, Nat.eqb_refl. reflexivity.
Qed.

(** X2: The network is consistent in its shapes: built from two sizes or more,
    it takes inputs of the first size, whose shape passes through every
    stage, and gives outputs of the last size; any other input size is a
    shape error. *)
Theorem mlp_shapes_chain (sizes : list nat) (d : nat) :
  (2 <= length sizes)%nat ->
  net_out_dim (mlp sizes activation output_activation) d
  = if (d =? hd O sizes)%nat then Some (last sizes O) else None.
Proof.
  destruct sizes as [|s0 [|s1 rest]]; simpl length; try lia.
  intros _. rewrite net_out_dim_mlp. reflexivity.
Qed.
End BuilderMore.

Lemma mlp_shapes_chain_witness :
  net_out_dim (mlp [4; 32; 2]%nat Tanh Identity) 4
  = if (4 =? hd O [4; 32; 2]%nat)%nat then Some (last [4; 32; 2]%nat O) else None.
Proof.
  apply (@mlp_shapes_chain TorchActivation Tanh Identity [4; 32; 2]%nat 4%nat).
  simpl. lia.
Defined.

(** ** Part VI: further properties of [train] *)

Section TrainMore.
Variables Obs Env Rng : Type.
Variable gym : Gym Env Obs R.
Variable torch : Torch Obs Rng.
Variable gym_make : string -> Error + Env.

Local Abbreviation train' := (train gym torch gym_make).
Local Abbreviation setup' := (setup gym torch gym_make).

(** What a successful [setup] went through. *)
Lemma setup_ret env_name hidden_sizes rng0 net (w0 : World Env Rng) :
  setup' env_name hidden_sizes rng0 = Ret (net, w0) ->
  exists env obs_dim shape n_acts,
    gym_make env_name = inr env /\
    observation_space gym env = Box (obs_dim :: shape) /\
    action_space gym env = Discrete n_acts /\
    net = mlp (obs_dim :: hidden_sizes ++ [n_acts]) Tanh Identity /\
    w0 = mkWorld env (snd (init_params torch net rng0))
                 (map fresh_slot (fst (init_params torch net rng0))) [].
Proof.
  unfold setup. destruct (gym_make env_name) as [e|env]; [discriminate|].
  destruct (observation_space gym env) as [shape| |] eqn:Eo; try discriminate.
  destruct (action_space gym env) as [|n_acts|] eqn:Ea; try discriminate.
  destruct shape as [|obs_dim shape]; [discriminate|].
  destruct (init_params torch _ rng0) as [theta0 rng1] eqn:Ei.
  intros H. inversion H; subst.
  exists env, obs_dim, shape, n_acts. rewrite Ei. repeat split; assumption.
Qed.

(** X5: With [epochs <= 0] nothing is trained: [train] returns right after
    building the network, whatever the fuel, with the initial parameters and
    nothing printed. *)
Theorem train_no_epochs fuel env_name hidden_sizes lr epochs batch_size render
        rng0 net (w0 : World Env Rng) :
  setup' env_name hidden_sizes rng0 = Ret (net, w0) ->
  (epochs <= 0)%Z ->
  train' fuel env_name hidden_sizes lr epochs batch_size render rng0 = Ret w0 /\
  w_stdout w0 = [] /\ Forall (fun s => slot_steps s = O) (w_slots w0).
Proof.
  intros Hs He. unfold train. rewrite Hs.
  replace (Z.to_nat epochs) with O by lia. simpl.
  apply setup_inv in Hs as (theta0 & Hsl & Hout).
  repeat split; [assumption|]. rewrite Hsl. apply Forall_map.
  apply Forall_forall. reflexivity.
Qed.

(** X3: The network [train] builds takes observations of the size of the
    observation space's first axis and gives one logit per action; it has
    one more linear layer than there are hidden sizes. *)
Theorem policy_network_shapes env_name hidden_sizes rng0 net (w0 : World Env Rng) :
  setup' env_name hidden_sizes rng0 = Ret (net, w0) ->
  exists obs_dim shape n_acts,
    observation_space gym (w_env w0) = Box (obs_dim :: shape) /\
    action_space gym (w_env w0) = Discrete n_acts /\
    length net = (2 * (length hidden_sizes + 1))%nat /\
    forall d, net_out_dim net d = if (d =? obs_dim)%nat then Some n_acts else None.
Proof.
  intros Hs. apply setup_ret in Hs as (env & obs_dim & shape & n_acts & _ & Ho & Ha & Hn & Hw).
  exists obs_dim, shape, n_acts. subst w0. simpl. repeat split; try assumption.
  - subst net. rewrite mlp_flat_map, flat_map_pairs_length by reflexivity.
    rewrite length_seq. cbn [length]. rewrite length_app. cbn [length]. lia.
  - intros d. subst net.
    destruct hidden_sizes as [|h hs]; simpl app.
    + apply net_out_dim_mlp.
    + rewrite net_out_dim_mlp. 
      replace (last (h :: hs ++ [n_acts]) O) with n_acts; [reflexivity|].
      change (h :: hs ++ [n_acts]) with ((h :: hs) ++ [n_acts]).
      now rewrite last_last.
Qed.

Lemma episode_steps_app (out1 out2 : list LogLine) :
  episode_steps (out1 ++ out2) = (episode_steps out1 + episode_steps out2)%nat.
Proof. unfold episode_steps. now rewrite flat_map_app, list_sum_app. Qed.

Lemma episode_steps_lengths (l : list nat) :
  episode_steps (map EpisodeLength l) = list_sum l.
Proof.
  unfold episode_steps. induction l as [|x l IH]; simpl in *; [reflexivity|].
  now rewrite IH.
Qed.

Section EpochsMore.
Variable net : Net.
Variable lr : R.
Variable batch_size : Z.
Variable render : bool.

Local Abbreviation epoch := (train_one_epoch gym torch net lr batch_size render).
Local Abbreviation loop := (epoch_loop gym torch net lr batch_size render).

(** An epoch prints the lengths of its episodes, which add up to more than
    [batch_size] steps, and at least one. *)
Lemma epoch_steps fuel (w w1 : World Env Rng) loss rets lens :
  epoch fuel w = Ret (w1, (loss, rets, lens)) ->
  episode_steps (w_stdout w1) = (episode_steps (w_stdout w) + list_sum lens)%nat /\
  (batch_size < Z.of_nat (list_sum lens))%Z /\ (1 <= list_sum lens)%nat.
Proof.
  intros H. apply train_one_epoch_inv in H as (s & a & Hc & _ & Hw1 & _ & Hl).
  apply collect_batch in Hc as (n & Hn & Hb). cbv zeta in Hb.
  destruct Hb as (_ & (_ & Hsz & _) & _ & _ & Hcat & _ & _ & _ & Hlen & Hp).
  subst w1 lens. simpl.
  rewrite episode_steps_app, episode_steps_lengths, Hp, Hlen.
  rewrite list_sum_lengths, Hcat, rollout_length.
  repeat split; [assumption|lia].
Qed.

Lemma epoch_loop_steps fuel : forall idx (w w' : World Env Rng),
  loop fuel idx w = Ret w' ->
  (Z.of_nat (episode_steps (w_stdout w))
   + Z.of_nat (length idx) * (Z.max 0 batch_size + 1)
   <= Z.of_nat (episode_steps (w_stdout w')))%Z.
Proof.
  induction idx as [|i idx IH]; intros w w' H; simpl in H.
  - inversion H; subst. simpl. lia.
  - destruct (epoch fuel w) as [[w1 [[loss rets] lens]]| |] eqn:He; try discriminate.
    apply epoch_steps in He as (Hst & Hsz & Hone).
    apply IH in H. simpl in H.
    rewrite episode_steps_app in H. unfold episode_steps at 2 in H. simpl in H.
    rewrite Hst in H. simpl length. nia.
Qed.
End EpochsMore.

(** X21: A finished [train] has taken more than [batch_size] environment steps,
    and at least one, in each of its epochs: the printed episode lengths
    add up to at least [epochs * (max 0 batch_size + 1)]. *)
Theorem train_total_steps fuel env_name hidden_sizes lr epochs batch_size render
        rng0 (w : World Env Rng) :
  train' fuel env_name hidden_sizes lr epochs batch_size render rng0 = Ret w ->
  (Z.max 0 epochs * (Z.max 0 batch_size + 1)
   <= Z.of_nat (episode_steps (w_stdout w)))%Z.
Proof.
  unfold train. destruct (setup' env_name hidden_sizes rng0) as [[net w0]| |] eqn:Hs;
    try discriminate.
  intros H. apply epoch_loop_steps in H. rewrite length_seq in H.
  apply setup_inv in Hs as (theta0 & _ & Hout). rewrite Hout in H.
  unfold episode_steps at 1 in H. simpl in H. lia.
Qed.
End TrainMore.

(** ** Part VII: further properties of the loss *)

Section LossMore.
Variables Obs Rng : Type.
Variable torch : Torch Obs Rng.
Variable net : Net.

Lemma sum_products_le (A : Type) (f g : A -> R) : forall (pairs : list A) (w : list R),
  (forall p, In p pairs -> g p <= f p) ->
  Forall (fun x => 0 <= x) w ->
  fold_right Rplus 0 (map (fun p => fst p * snd p) (combine (map g pairs) w))
  <= fold_right Rplus 0 (map (fun p => fst p * snd p) (combine (map f pairs) w)).
Proof.
  induction pairs as [|p pairs IH]; intros w Hle Hw; simpl; [lra|].
  destruct w as [|x w]; simpl; [lra|].
  inversion Hw; subst.
  apply Rplus_le_compat.
  - apply Rmult_le_compat_r; [assumption|]. apply Hle. now left.
  - apply IH; [|assumption]. intros q Hq. apply Hle. now right.
Qed.

(** X17: The sign of the loss: with weights that are not negative, parameters
    under which no action taken in the batch is more likely give a loss
    that is not smaller. *)
Theorem compute_loss_sign (theta theta' : list R) (obs : list Obs)
        (act : list nat) (weights : list R) :
  length act = length obs -> length weights = length obs ->
  Forall (fun x => 0 <= x) weights ->
  (forall o a, In (o, a) (combine obs act) ->
               log_prob torch net theta' o a <= log_prob torch net theta o a) ->
  exists l l',
    compute_loss torch net theta obs act weights = Some l /\
    compute_loss torch net theta' obs act weights = Some l' /\
    l <= l'.
Proof.
  intros Ha Hw Hpos Hle.
  rewrite !compute_loss_aligned by assumption.
  eexists; eexists; split; [reflexivity|]; split; [reflexivity|].
  unfold tensor_mean. rewrite !length_map, !length_combine, !length_map.
  rewrite length_combine, Ha, Hw, !Nat.min_id.
  assert (Hsum := @sum_products_le (Obs * nat)
                    (fun oa => log_prob torch net theta (fst oa) (snd oa))
                    (fun oa => log_prob torch net theta' (fst oa) (snd oa))
                    (combine obs act) weights).
  cbv beta in Hsum. 
  assert (Hs : forall p, In p (combine obs act) ->
                 log_prob torch net theta' (fst p) (snd p)
                 <= log_prob torch net theta (fst p) (snd p)).
  { intros [o a] Hin. now apply Hle. }
  specialize (Hsum Hs Hpos).
  destruct obs as [|o obs].
  { simpl. apply Rle_refl. }
  assert (Hn : 0 < INR (length (o :: obs))) by (apply lt_0_INR; simpl; lia).
  apply Ropp_le_contravar. unfold Rdiv.
  apply Rmult_le_compat_r; [|exact Hsum].
  left. now apply Rinv_0_lt_compat.
Qed.
End LossMore.

(** ** Part VIII: rewards of 1, and the entry point *)

Section UnitRewards.
Variables Obs Env Rng : Type.
Variable gym : Gym Env Obs R.
Variable get_action : Obs -> Rng -> nat * Rng.
Variable render : bool.
Variable batch_size : Z.
Hypothesis reward_one : forall e act, sr_reward (snd (step gym e act)) = 1.

Lemma interact_reward_one (s : Sim Obs Env Rng) :
  st_rew (snd (interact gym get_action render s)) = 1.
Proof.
  unfold interact.
  destruct (get_action (s_obs s) (s_rng s)) as [act rng1].
  pose proof (reward_one
                (if negb (s_finished_rendering s) && render
                 then render_frame gym (s_env s) else s_env s) act) as Hr.
  destruct (step gym _ act) as [env2 r]. simpl in Hr.
  destruct (sr_terminated r); [destruct (reset gym env2)|]; exact Hr.
Qed.

Lemma rollout_reward_one n : forall s : Sim Obs Env Rng,
  Forall (fun x => st_rew x = 1) (rollout gym get_action render n s).
Proof.
  induction n as [|n IH]; intros s; simpl; constructor.
  - apply interact_reward_one.
  - apply IH.
Qed.

Lemma py_sum_ones : forall (l : list R) acc,
  Forall (fun x => x = 1) l -> fold_left Rplus l acc = acc + INR (length l).
Proof.
  induction l as [|x l IH]; intros acc H.
  - simpl. lra.
  - inversion H; subst. cbn [fold_left length]. rewrite IH by assumption.
    rewrite S_INR. lra.
Qed.

Lemma Forall_concat_in (A : Type) (P : A -> Prop) (ls : list (list A)) :
  Forall P (concat ls) -> Forall (Forall P) ls.
Proof.
  induction ls as [|l ls IH]; simpl; intros H; constructor.
  - apply Forall_app in H. tauto.
  - apply IH. apply Forall_app in H. tauto.
Qed.

(** X15: In an environment that pays 1 for every step (as the pole-balancing
    task does), the return of each episode is its length: the returns
    logged are the lengths logged, and every step's weight is the length of
    its episode. *)
Theorem unit_rewards_returns_are_lengths fuel s s' a' :
  collect 0 Rplus gym get_action render batch_size fuel s (empty_acc Obs R)
  = Some (s', a') ->
  batch_rets a' = map INR (batch_lens a') /\
  batch_weights a' = flat_map (fun l => repeat (INR l) l) (batch_lens a').
Proof.
  intros H. apply collect_batch in H as (n & _ & H). cbv zeta in H.
  destruct H as (_ & _ & _ & _ & Hc & _ & Hw & Hr & Hl & _).
  assert (Hall : Forall (Forall (fun x => st_rew x = 1))
                        (episodes (rollout gym get_action render n s))).
  { apply Forall_concat_in. rewrite Hc. apply rollout_reward_one. }
  assert (Hret : forall ep, Forall (fun x : Step Obs R => st_rew x = 1) ep ->
                   episode_return 0 Rplus ep = INR (length ep)).
  { intros ep Hep. unfold episode_return, py_sum.
    rewrite py_sum_ones by (apply Forall_map; exact Hep).
    rewrite length_map. lra. }
  rewrite Hw, Hr, Hl. unfold return_weights.
  revert Hall. generalize (episodes (rollout gym get_action render n s)).
  induction l as [|ep eps IH]; intros Hall; simpl; [split; reflexivity|].
  inversion Hall; subst. destruct (IH H2) as [IH1 IH2].
  rewrite IH1, IH2, Hret by assumption. split; reflexivity.
Qed.
End UnitRewards.

Section MainFacts.
Variables Obs Env Rng : Type.
Variable gym : Gym Env Obs R.
Variable torch : Torch Obs Rng.
Variable gym_make : string -> Error + Env.

End MainFacts.

(** *** Runs on the stub environments *)

Section TwoStepRuns.
Variable Rng : Type.
Variable get_action : unit -> Rng -> nat * Rng.
Variable render : bool.

Local Abbreviation interact2 := (interact stub_gym get_action render).




End TwoStepRuns.

Section TwoStepTraining.
Variable Rng : Type.
Variable torch : Torch unit Rng.



End TwoStepTraining.

(** *** Instances *)

Lemma batch_returns_and_lengths_witness :
  exists tr,
    tr = rollout stub_gym stub_action false (length tr) stub_start /\
    batch_rets stub_batch
    = map (fun ep => py_sum 0 Rplus (map (@st_rew _ _) ep)) (episodes tr) /\
    batch_lens stub_batch = map (@length _) (episodes tr) /\
    printed stub_batch = batch_lens stub_batch /\
    batch_weights stub_batch =
      flat_map (fun p => repeat (fst p) (snd p))
               (combine (batch_rets stub_batch) (batch_lens stub_batch)).
Proof.
  apply (@batch_returns_and_lengths unit StubEnv unit R 0 Rplus stub_gym
           stub_action false 3%Z 4%nat stub_start stub_end stub_batch).
  reflexivity.
Defined.

Lemma batch_is_not_empty_witness :
  (1 <= length (batch_obs stub_batch))%nat /\
  (1 <= length (batch_rets stub_batch))%nat /\
  length (batch_rets stub_batch) = length (batch_lens stub_batch) /\
  Forall (fun l => (1 <= l)%nat) (batch_lens stub_batch).
Proof.
  apply (@batch_is_not_empty unit StubEnv unit R 0 Rplus stub_gym
           stub_action false 3%Z 4%nat stub_start stub_end stub_batch).
  reflexivity.
Defined.

Lemma batch_without_last_episode_is_small_witness :
  (Z.of_nat (list_sum (removelast (batch_lens stub_batch))) <= Z.max 0 3)%Z.
Proof.
  apply (@batch_without_last_episode_is_small unit StubEnv unit R 0 Rplus stub_gym
           stub_action false 3%Z 4%nat stub_start stub_end stub_batch).
  reflexivity.
Defined.

Lemma nonpositive_batch_size_one_episode_witness :
  batch_lens stub_batch1 = [length (batch_obs stub_batch1)] /\
  length (batch_rets stub_batch1) = 1%nat.
Proof.
  apply (@nonpositive_batch_size_one_episode unit StubEnv unit R 0 Rplus stub_gym
           stub_action false 0%Z 2%nat stub_start stub_end stub_batch1).
  - lia.
  - reflexivity.
Defined.

Lemma collect_needs_termination_witness :
  collect 0 Rplus endless_gym stub_action false 3 1000 (mkSim O tt tt false)
          (empty_acc unit R) = None.
Proof.
  apply (@collect_needs_termination unit nat unit R 0 Rplus endless_gym
           stub_action false 3%Z 1000%nat (fun e act => eq_refl)
           (mkSim O tt tt false) (empty_acc unit R)).
Defined.

Lemma collect_renders_first_episode_only_witness :
  collect 0 Rplus camera_gym stub_action true 3 (2 + 2)
          (mkSim (O, O) tt tt false) (empty_acc unit R)
  = collect 0 Rplus (rerender (fun e => e) camera_gym) stub_action false 3 2
            (mkSim (O, 2%nat) tt tt true)
            (mkAcc [tt; tt] [O; O] [0 + 1 + 1; 0 + 1 + 1] [0 + 1 + 1] [2%nat] []
                   [2%nat]).
Proof.
  apply (@collect_renders_first_episode_only unit (nat * nat) unit R 0 Rplus
           camera_gym stub_action 3%Z (fun e => e) 2%nat 2%nat
           (mkSim (O, O) tt tt false) (empty_acc unit R)).
  - reflexivity.
  - reflexivity.
  - intros [|[|j]] Hj; [reflexivity|reflexivity|lia].
Defined.

(** After its first episode the camera has taken two frames, and it takes
    no more in the epoch. *)
Example camera_takes_two_frames :
  option_map (fun r => s_env (fst r))
             (collect 0 Rplus camera_gym stub_action true 3 4
                      (mkSim (O, O) tt tt false) (empty_acc unit R))
  = Some (O, 2%nat).
Proof. reflexivity. Qed.

Lemma train_no_epochs_witness :
  train stub_gym stub_torch stub_make 0 "TwoStep-v0" [32%nat] (1 / 100) 0 3 false tt
  = Ret stub_world0 /\
  w_stdout stub_world0 = [] /\
  Forall (fun s => slot_steps s = O) (w_slots stub_world0).
Proof.
  apply (@train_no_epochs unit StubEnv unit stub_gym stub_torch stub_make
           0%nat "TwoStep-v0" [32%nat] (1 / 100) 0%Z 3%Z false tt stub_net
           stub_world0).
  - exact stub_setup.
  - lia.
Defined.

Lemma policy_network_shapes_witness :
  exists obs_dim shape n_acts,
    observation_space stub_gym (w_env stub_world0) = Box (obs_dim :: shape) /\
    action_space stub_gym (w_env stub_world0) = Discrete n_acts /\
    length stub_net = (2 * (length [32%nat] + 1))%nat /\
    forall d, net_out_dim stub_net d
              = if (d =? obs_dim)%nat then Some n_acts else None.
Proof.
  apply (@policy_network_shapes unit StubEnv unit stub_gym stub_torch stub_make
           "TwoStep-v0" [32%nat] tt stub_net stub_world0).
  exact stub_setup.
Defined.

Lemma train_total_steps_witness :
  (Z.max 0 3 * (Z.max 0 3 + 1)
   <= Z.of_nat (episode_steps (w_stdout (stub_final (1 / 100) 3))))%Z.
Proof.
  apply (@train_total_steps unit StubEnv unit stub_gym stub_torch stub_make
           4%nat "TwoStep-v0" [32%nat] (1 / 100) 3%Z 3%Z false tt
           (stub_final (1 / 100) 3)).
  exact (stub_train_finishes (1 / 100) 3).
Defined.

Lemma stub_log_prob_grows : stub_log_prob [0] 0 <= stub_log_prob [1] 0.
Proof.
  unfold stub_log_prob. simpl.
  rewrite exp_0.
  assert (He : 2 < exp 1) by (pose proof (exp_ineq1 1); lra).
  assert (Hl : ln (exp 1 + 1) <= ln (2 * exp 1)).
  { left. apply ln_increasing; lra. }
  rewrite ln_mult, ln_exp in Hl by lra.
  replace (1 + 1) with 2 by ring. lra.
Qed.

Lemma compute_loss_sign_witness :
  exists l l',
    compute_loss stub_torch [] [1] [tt; tt] [O; O] [2; 2] = Some l /\
    compute_loss stub_torch [] [0] [tt; tt] [O; O] [2; 2] = Some l' /\
    l <= l'.
Proof.
  apply (@compute_loss_sign unit unit stub_torch [] [1] [0] [tt; tt] [O; O] [2; 2]).
  - reflexivity.
  - reflexivity.
  - repeat constructor; lra.
  - intros o a Hin. simpl in Hin.
    destruct Hin as [H|[H|[]]]; inversion H; subst; exact stub_log_prob_grows.
Defined.

Lemma unit_rewards_returns_are_lengths_witness :
  batch_rets three_step_batch = map INR (batch_lens three_step_batch) /\
  batch_weights three_step_batch
  = flat_map (fun l => repeat (INR l) l) (batch_lens three_step_batch).
Proof.
  apply (@unit_rewards_returns_are_lengths unit nat unit three_step_gym
           stub_action false 2%Z (fun e act => eq_refl) 3%nat
           (mkSim O tt tt false) (mkSim O tt tt true) three_step_batch).
  reflexivity.
Defined.


Lemma epoch_accumulates_gradient_witness :
  exists s a,
    collect 0 Rplus stub_gym
            (sample stub_torch stub_net (params (stub_final (1 / 100) 1))) false 3 4
            (mkSim (fst (reset stub_gym (w_env (stub_final (1 / 100) 1))))
                   (snd (reset stub_gym (w_env (stub_final (1 / 100) 1))))
                   (w_rng (stub_final (1 / 100) 1)) false)
            (empty_acc unit R) = Some (s, a) /\
    map p_grad
        (w_slots
           (mkWorld (TwoStep 0) tt
              (map (adam_step (1 / 100))
                 (backward
                    (batch_grad stub_torch stub_net
                                (params (stub_final (1 / 100) 1)) stub_batch)
                    (w_slots (stub_final (1 / 100) 1))))
              (w_stdout (stub_final (1 / 100) 1)
               ++ [EpisodeLength 2; EpisodeLength 2])))
    = map (fun p => Some (accumulated (snd p)
                            (batch_grad stub_torch stub_net
                                        (params (stub_final (1 / 100) 1)) a (fst p))))
          (combine (seq 0 (length (w_slots (stub_final (1 / 100) 1))))
                   (map p_grad (w_slots (stub_final (1 / 100) 1)))).
Proof.
  apply (@epoch_accumulates_gradient unit StubEnv unit stub_gym stub_torch stub_net
           (1 / 100) 3%Z false 4%nat (stub_final (1 / 100) 1) _
           (stub_loss (params (stub_final (1 / 100) 1)),
            batch_rets stub_batch, batch_lens stub_batch)).
  exact (@stub_epoch (1 / 100) (stub_final (1 / 100) 1) O eq_refl).
Defined.

(** ** Part IX: the shape of the output *)

Section OutputShape.
Variables Obs Env Rng : Type.
Variable gym : Gym Env Obs R.
Variable torch : Torch Obs Rng.
Variable gym_make : string -> Error + Env.

Lemma epoch_prints net lr batch_size render fuel (w w1 : World Env Rng)
      loss rets lens :
  train_one_epoch gym torch net lr batch_size render fuel w
  = Ret (w1, (loss, rets, lens)) ->
  w_stdout w1 = w_stdout w ++ map EpisodeLength lens /\
  (batch_size < Z.of_nat (list_sum lens))%Z /\ (1 <= length lens)%nat.
Proof.
  intros H. pose proof H as Hst. apply epoch_steps in Hst as (_ & Hsz & Hone).
  apply train_one_epoch_inv in H as (s & a & Hc & _ & Hw1 & _ & Hl).
  apply collect_batch in Hc as (n & _ & Hb). cbv zeta in Hb.
  destruct Hb as (_ & _ & _ & _ & _ & _ & _ & _ & Hlen & Hp).
  subst w1 lens. simpl. rewrite Hp, <- Hlen.
  repeat split; try assumption.
  destruct (batch_lens a); simpl in *; lia.
Qed.

Lemma epoch_loop_reports net lr batch_size render fuel :
  forall idx (w w' : World Env Rng),
  epoch_loop gym torch net lr batch_size render fuel idx w = Ret w' ->
  exists reports,
    w_stdout w' = w_stdout w ++ flat_map print_report reports /\
    map er_index reports = idx /\
    Forall (fun r => (1 <= length (er_lens r))%nat /\
                     (batch_size < Z.of_nat (list_sum (er_lens r)))%Z) reports.
Proof.
  induction idx as [|i idx IH]; intros w w' H; simpl in H.
  - inversion H; subst. exists []. simpl. rewrite app_nil_r. repeat split. constructor.
  - destruct (train_one_epoch _ _ _ _ _ _ fuel w)
      as [[w1 [[loss rets] lens]]| |] eqn:He; try discriminate.
    apply epoch_prints in He as (Hout & Hsz & Hne).
    apply IH in H as (reports & Hw' & Hidx & Hall). simpl in Hw'.
    exists (mkReport i lens loss (np_mean rets) :: reports).
    repeat split.
    + rewrite Hw', Hout. cbn [flat_map]. unfold print_report.
      cbn [er_index er_lens er_loss er_return].
      rewrite <- !app_assoc. reflexivity.
    + simpl. now rewrite Hidx.
    + constructor; [split; assumption|assumption].
Qed.

(** X22: Everything a finished [train] printed: for each epoch in turn, the
    length of each of its episodes (at least one, adding up to more than
    [batch_size]) and then the epoch's line, whose last column is the mean
    of the lengths just printed. *)
Theorem train_output_shape fuel env_name hidden_sizes lr epochs batch_size
        render rng0 (w : World Env Rng) :
  train gym torch gym_make fuel env_name hidden_sizes lr epochs batch_size render rng0
  = Ret w ->
  exists reports,
    w_stdout w = flat_map print_report reports /\
    map er_index reports = seq 0 (Z.to_nat epochs) /\
    Forall (fun r => (1 <= length (er_lens r))%nat /\
                     (batch_size < Z.of_nat (list_sum (er_lens r)))%Z) reports.
Proof.
  unfold train.
  destruct (setup gym torch gym_make env_name hidden_sizes rng0)
    as [[net w0]| |] eqn:Hs; try discriminate.
  intros H. apply epoch_loop_reports in H as (reports & Hout & Hidx & Hall).
  apply setup_inv in Hs as (theta0 & _ & Hout0). rewrite Hout0 in Hout.
  exists reports. repeat split; assumption.
Qed.
End OutputShape.

Lemma train_output_shape_witness :
  exists reports,
    w_stdout (stub_final (1 / 100) 3) = flat_map print_report reports /\
    map er_index reports = seq 0 (Z.to_nat 3) /\
    Forall (fun r => (1 <= length (er_lens r))%nat /\
                     (3 < Z.of_nat (list_sum (er_lens r)))%Z) reports.
Proof.
  apply (@train_output_shape unit StubEnv unit stub_gym stub_torch stub_make
           4%nat "TwoStep-v0" [32%nat] (1 / 100) 3%Z 3%Z false tt
           (stub_final (1 / 100) 3)).
  exact (stub_train_finishes (1 / 100) 3).
Defined.

(** ** Part X: the optimizer in binary32 *)

(** *** At the real numbers the generic optimizer is the optimizer of [train] *)

Lemma adam_step_in_real lr (s : Slot) :
  slot_in (adam_step lr s) = adam_step_in R_arith lr (slot_in s).
Proof. destruct s as [x [g|] [st|]]; reflexivity. Qed.

Lemma backward_from_in_real g : forall slots i,
  map slot_in (backward_from i g slots)
  = backward_from_in R_arith i g (map slot_in slots).
Proof.
  induction slots as [|s slots IH]; intros i; simpl; [reflexivity|].
  rewrite IH. reflexivity.
Qed.

Lemma epoch_in_real lr g (slots : list Slot) :
  map slot_in (map (adam_step lr) (backward g slots))
  = epoch_in R_arith lr g (map slot_in slots).
Proof.
  unfold epoch_in, backward_in, backward.
  rewrite <- backward_from_in_real, !map_map.
  apply map_ext. intros s. apply adam_step_in_real.
Qed.

Section OptimizerOfTrain.
Variables Obs Env Rng : Type.
Variable gym : Gym Env Obs R.
Variable torch : Torch Obs Rng.

(** The parameters, gradient buffers and optimizer state [train] ends with
    are those of [run_in], fed the gradient of each epoch's batch loss. *)
Lemma epoch_loop_runs_optimizer net lr batch_size render fuel :
  forall idx (w w' : World Env Rng),
  epoch_loop gym torch net lr batch_size render fuel idx w = Ret w' ->
  exists gs, length gs = length idx /\
    map slot_in (w_slots w') = run_in R_arith lr gs (map slot_in (w_slots w)).
Proof.
  induction idx as [|i idx IH]; intros w w' H; simpl in H.
  - inversion H; subst. exists []. split; reflexivity.
  - destruct (train_one_epoch _ _ _ _ _ _ fuel w)
      as [[w1 [[loss rets] lens]]| |] eqn:He; try discriminate.
    apply train_one_epoch_inv in He as (s & a & _ & _ & Hw1 & _ & _).
    apply IH in H as (gs & Hlen & Hrun). simpl in Hrun.
    exists (batch_grad torch net (params w) a :: gs). split.
    + simpl. now rewrite Hlen.
    + rewrite Hrun. subst w1. simpl. unfold run_in. simpl.
      now rewrite epoch_in_real.
Qed.

(** So is a finished [train]: one gradient per epoch, from the parameters
    [setup] made. *)
Lemma train_runs_optimizer (gym_make : string -> Error + Env) fuel env_name
      hidden_sizes lr epochs batch_size render rng0 net (w0 w : World Env Rng) :
  setup gym torch gym_make env_name hidden_sizes rng0 = Ret (net, w0) ->
  train gym torch gym_make fuel env_name hidden_sizes lr epochs batch_size render rng0
  = Ret w ->
  exists gs, length gs = Z.to_nat epochs /\
    map slot_in (w_slots w) = run_in R_arith lr gs (map slot_in (w_slots w0)).
Proof.
  intros Hs Ht. unfold train in Ht. rewrite Hs in Ht.
  apply epoch_loop_runs_optimizer in Ht as (gs & Hlen & Hrun).
  exists gs. rewrite length_seq in Hlen. split; assumption.
Qed.
End OptimizerOfTrain.

(** *** Learning rate 0 in binary32 *)

Lemma all_powers_spec (P : f32 -> bool) (x : f32) : forall n k,
  all_powers P x (pow_in f32_arith x k) n = true ->
  forall j, (j < n)%nat -> P (pow_in f32_arith x (k + j)) = true.
Proof.
  induction n as [|n IH]; intros k H j Hj; [lia|].
  simpl in H. apply andb_prop in H as [H0 H1].
  destruct j as [|j].
  - rewrite Nat.add_0_r. exact H0.
  - replace (k + S j)%nat with (S k + j)%nat by lia.
    apply IH; [exact H1|lia].
Qed.

(** The rounded powers of [beta1] stop at the smallest float their product
    with [beta1] rounds back to. *)
Lemma pow_beta1_settles n :
  (1000 <= n)%nat ->
  pow_in f32_arith (beta1_in f32_arith) n = S754_finite false 4 (-149).
Proof.
  induction 1 as [|n Hn IH].
  - vm_compute. reflexivity.
  - change (pow_in f32_arith (beta1_in f32_arith) (S n))
      with (SFmul 24 128 (beta1_in f32_arith)
                  (pow_in f32_arith (beta1_in f32_arith) n)).
    rewrite IH. vm_compute. reflexivity.
Qed.

(** [bias_correction1] is a finite non-zero number at every step. *)
Lemma bias_correction1_finite t :
  f32_nonzero_finite
    (SFsub 24 128 (f32_of_Z 1) (pow_in f32_arith (beta1_in f32_arith) (S t))) = true.
Proof.
  destruct (Nat.lt_ge_cases (S t) 1000) as [Hlt|Hge].
  - apply (@all_powers_spec
             (fun c => f32_nonzero_finite (SFsub 24 128 (f32_of_Z 1) c))
             (beta1_in f32_arith) 1000 1); [vm_compute; reflexivity|lia].
  - rewrite pow_beta1_settles by exact Hge. vm_compute. reflexivity.
Qed.

Lemma zero_step_size lr t :
  f32_is_zero lr = true ->
  f32_is_zero (step_size_in f32_arith lr (S t)) = true.
Proof.
  intros Hz. unfold step_size_in.
  pose proof (bias_correction1_finite t) as Hb.
  cbn [a_div a_sub a_of_Z f32_arith].
  destruct (SFsub 24 128 (f32_of_Z 1) (pow_in f32_arith (beta1_in f32_arith) (S t)));
    try discriminate.
  destruct lr; try discriminate. reflexivity.
Qed.

(** Adding a zero times a finite number changes nothing but, at most, the
    sign of a zero. *)
Lemma zero_update_keeps (p z q : f32) :
  f32_is_zero z = true -> f32_finite q = true ->
  same_value (SFadd 24 128 p (SFmul 24 128 (SFopp z) q)) p.
Proof.
  intros Hz Hq. destruct z as [sz| | |]; try discriminate.
  destruct q as [sq| | |sq mq eq]; try discriminate;
    destruct p as [[|]| | |sp mp ep], sz, sq; simpl;
    solve [left; reflexivity | right; split; reflexivity].
Qed.

Lemma same_value_trans (x y z : f32) :
  same_value x y -> same_value y z -> same_value x z.
Proof.
  intros [->|[Hx Hy]] [->|[Hy' Hz]]; unfold same_value; auto.
Qed.

Lemma same_values_trans : forall (xs ys zs : list f32),
  Forall2 same_value xs ys -> Forall2 same_value ys zs -> Forall2 same_value xs zs.
Proof.
  induction xs as [|x xs IH]; intros ys zs H1 H2;
    inversion H1; subst; inversion H2; subst; constructor.
  - eapply same_value_trans; eassumption.
  - eapply IH; eassumption.
Qed.

Lemma same_values_refl : forall xs : list f32, Forall2 same_value xs xs.
Proof. induction xs; constructor; [now left|assumption]. Qed.

Lemma adam_step_in_zero_lr lr (s : SlotIn f32) :
  f32_is_zero lr = true -> step_finite s = true ->
  same_value (d_data (adam_step_in f32_arith lr s)) (d_data s).
Proof.
  intros Hz Hf. unfold adam_step_in, step_finite in *.
  destruct (d_grad s) as [g|]; [|now left].
  cbn [d_data]. apply zero_update_keeps; [|exact Hf].
  apply (@zero_step_size lr (ai_step (state_in f32_arith s)) Hz).
Qed.

Lemma epoch_in_zero_lr lr g : forall (slots : list (SlotIn f32)) i,
  f32_is_zero lr = true ->
  forallb step_finite (backward_from_in f32_arith i g slots) = true ->
  Forall2 same_value
          (map (@d_data f32)
               (map (adam_step_in f32_arith lr) (backward_from_in f32_arith i g slots)))
          (map (@d_data f32) slots).
Proof.
  induction slots as [|s slots IH]; intros i Hz Hf; simpl in *; [constructor|].
  apply andb_prop in Hf as [Hs Hrest].
  constructor; [|now apply IH].
  apply (@adam_step_in_zero_lr lr _ Hz Hs).
Qed.

(** C6 (as amended): with learning rate 0, and as long as no update
    [exp_avg / denom] that Adam computes is infinite or NaN, the parameters
    after any number of epochs, whatever the gradients of their batch
    losses, are the initial parameters (a zero may have changed sign). *)
Theorem zero_learning_rate_keeps_finite_parameters (lr : f32)
        (gs : list (nat -> f32)) (slots : list (SlotIn f32)) :
  f32_is_zero lr = true ->
  updates_finite lr gs slots = true ->
  Forall2 same_value
          (map (@d_data f32) (run_in f32_arith lr gs slots))
          (map (@d_data f32) slots).
Proof.
  intros Hz. revert slots.
  induction gs as [|g gs IH]; intros slots Hf; simpl in *.
  - apply same_values_refl.
  - apply andb_prop in Hf as [Hnow Hlater].
    eapply same_values_trans; [apply (IH _ Hlater)|].
    apply epoch_in_zero_lr; assumption.
Qed.

(** C6 (as stated) fails: with learning rate 0 and one epoch whose batch
    loss has an infinite gradient (as with an infinite reward), the
    parameter 1.0 becomes NaN. *)
Lemma zero_lr_infinite_gradient_gives_nan :
  f32_is_zero (f32_of_Z 0) = true /\
  map (@d_data f32)
      (run_in f32_arith (f32_of_Z 0) [fun _ => S754_infinity true]
              [mkSlotIn (f32_of_Z 1) None None])
  = [S754_nan] /\
  ~ same_value S754_nan (f32_of_Z 1).
Proof.
  split; [reflexivity|]. split; [vm_compute; reflexivity|].
  intros [H|[H _]]; vm_compute in H; discriminate.
Qed.

(** Finite gradients are not enough: nothing clears the gradient buffers,
    and the sum of two finite gradients can overflow.  Here each of two
    epochs has the gradient [2^127]; the second step turns the parameter
    into NaN although the learning rate is 0. *)
Example zero_lr_accumulated_gradient_overflows :
  let g := S754_finite false 8388608 104 in
  f32_finite g = true /\
  map (@d_data f32)
      (run_in f32_arith (f32_of_Z 0) [fun _ => g] [mkSlotIn (f32_of_Z 1) None None])
  = [f32_of_Z 1] /\
  map (@d_data f32)
      (run_in f32_arith (f32_of_Z 0) [fun _ => g; fun _ => g]
              [mkSlotIn (f32_of_Z 1) None None])
  = [S754_nan].
Proof. cbv zeta. repeat split; vm_compute; reflexivity. Qed.

(** The sign of a zero can change: the parameter [-0.0] with a negative
    gradient becomes [+0.0]. *)
Example zero_lr_changes_sign_of_zero :
  map (@d_data f32)
      (run_in f32_arith (f32_of_Z 0) [fun _ => f32_of_Z (-1)]
              [mkSlotIn (S754_zero true) None None])
  = [S754_zero false].
Proof. vm_compute. reflexivity. Qed.

(** A step can leave a parameter where it is although neither the learning
    rate nor the gradient is 0: with learning rate [2^-100] and gradient
    [-1] the update of the parameter 1.0 is lost in the rounding. *)
Example tiny_learning_rate_is_absorbed :
  let lr := S754_finite false 8388608 (-123) in
  f32_is_zero lr = false /\
  f32_is_zero (f32_of_Z (-1)) = false /\
  map (@d_data f32)
      (run_in f32_arith lr [fun _ => f32_of_Z (-1)]
              [mkSlotIn (f32_of_Z 1) None None])
  = [f32_of_Z 1].
Proof. cbv zeta. repeat split; vm_compute; reflexivity. Qed.

Lemma zero_learning_rate_keeps_finite_parameters_witness :
  Forall2 same_value
          (map (@d_data f32)
               (run_in f32_arith (f32_of_Z 0)
                       [fun i => f32_of_Z (Z.of_nat i - 1);
                        fun i => SFdiv 24 128 (f32_of_Z (-3)) (f32_of_Z 7);
                        fun i => f32_of_Z (100 * Z.of_nat i)]
                       [mkSlotIn (f32_of_Z 1) None None;
                        mkSlotIn (S754_zero true) None None;
                        mkSlotIn (SFdiv 24 128 (f32_of_Z 1) (f32_of_Z 3)) None None]))
          (map (@d_data f32)
               [mkSlotIn (f32_of_Z 1) None None;
                mkSlotIn (S754_zero true) None None;
                mkSlotIn (SFdiv 24 128 (f32_of_Z 1) (f32_of_Z 3)) None None]).
Proof.
  apply (@zero_learning_rate_keeps_finite_parameters (f32_of_Z 0)
           [fun i => f32_of_Z (Z.of_nat i - 1);
            fun i => SFdiv 24 128 (f32_of_Z (-3)) (f32_of_Z 7);
            fun i => f32_of_Z (100 * Z.of_nat i)]
           [mkSlotIn (f32_of_Z 1) None None;
            mkSlotIn (S754_zero true) None None;
            mkSlotIn (SFdiv 24 128 (f32_of_Z 1) (f32_of_Z 3)) None None]).
  - reflexivity.
  - vm_compute. reflexivity.
Defined.
